(** * manga-discord-bot: a shallow embedding of [bot.py]

    The bot keeps a JSON document [state.json] with the tracked series and
    the last chapter seen for each, polls the VIZ chapter pages and posts a
    Discord message when the top chapter changes.

    Python objects are modelled as follows.
    - [str] is [string]; a character is a code point below 256, so the
      classes [\s], [\d], [str.strip] and [str.lower] are the Unicode ones
      restricted to Latin-1.
    - [dict] is an association list in insertion order with unique keys
      ([pydict]); the state document is a dict of dicts of strings.
    - side effects (the state file, HTTP requests, Discord messages,
      [print]) are threaded through a [World]; exceptions are the [Raise]
      case of [result], and what happened before a raise stays visible.
    - the libraries the bot calls (aiohttp, BeautifulSoup, [json.load],
      the Discord channel) are the fields of an [Env]. *)

From Stdlib Require Import Bool Arith Lia List Ascii String.
Import ListNotations.
Open Scope list_scope.
Open Scope string_scope.

Set Implicit Arguments.

(** ** Strings *)

Module Str.

Lemma append_nil_r (s : string) : s ++ "" = s.
Proof. induction s as [|c s IH]; simpl; [reflexivity | now rewrite IH]. Qed.

Lemma append_assoc (a b c : string) : (a ++ b) ++ c = a ++ (b ++ c).
Proof. induction a as [|x a IH]; simpl; [reflexivity | now rewrite IH]. Qed.

(** All characters of a string satisfy a class. *)
Fixpoint all (p : ascii -> bool) (s : string) : bool :=
  match s with
  | EmptyString => true
  | String c s' => p c && all p s'
  end.

Lemma all_append p a b : all p (a ++ b) = all p a && all p b.
Proof.
  induction a as [|x a IH]; simpl; [reflexivity|].
  now rewrite IH, andb_assoc.
Qed.

Fixpoint map (f : ascii -> ascii) (s : string) : string :=
  match s with
  | EmptyString => EmptyString
  | String c s' => String (f c) (map f s')
  end.

Lemma map_append f a b : map f (a ++ b) = map f a ++ map f b.
Proof. induction a as [|x a IH]; simpl; [reflexivity | now rewrite IH]. Qed.


Fixpoint rev (s : string) : string :=
  match s with
  | EmptyString => EmptyString
  | String c s' => rev s' ++ String c ""
  end.

Lemma rev_append a b : rev (a ++ b) = rev b ++ rev a.
Proof.
  induction a as [|x a IH]; simpl.
  - now rewrite append_nil_r.
  - now rewrite IH, append_assoc.
Qed.

Lemma rev_involutive s : rev (rev s) = s.
Proof.
  induction s as [|c s IH]; simpl; [reflexivity|].
  now rewrite rev_append, IH.
Qed.


Lemma map_rev f s : map f (rev s) = rev (map f s).
Proof.
  induction s as [|c s IH]; simpl; [reflexivity|].
  now rewrite map_append, IH.
Qed.

(** Drop the longest prefix whose characters are in the class. *)
Fixpoint drop_while (p : ascii -> bool) (s : string) : string :=
  match s with
  | EmptyString => EmptyString
  | String c s' => if p c then drop_while p s' else s
  end.


Lemma drop_while_head p c s : p c = false -> drop_while p (String c s) = String c s.
Proof. intros H; simpl; now rewrite H. Qed.

End Str.

(** ** Character classes *)

Definition code (c : ascii) : nat := nat_of_ascii c.

Definition in_range (lo hi : nat) (c : ascii) : bool :=
  Nat.leb lo (code c) && Nat.leb (code c) hi.

(** [[A-Z]], [[a-z]] and [[0-9]] as the pattern writes them. *)
Definition cls_AZ : ascii -> bool := in_range 65 90.
Definition cls_az : ascii -> bool := in_range 97 122.
Definition cls_09 : ascii -> bool := in_range 48 57.

(** [\d] of a [str] pattern: the decimal digits (category Nd); below 256
    these are the ASCII digits. *)
Definition cls_d : ascii -> bool := in_range 48 57.

(** [\s] of a [str] pattern and the characters [str.strip] removes
    ([str.isspace]): TAB LF VT FF CR, FS GS RS US, SPACE, NEL and NBSP. *)
Definition isspace (c : ascii) : bool :=
  in_range 9 13 c || in_range 28 32 c || Nat.eqb (code c) 133 || Nat.eqb (code c) 160.

Definition cls_s : ascii -> bool := isspace.

(** [str.lower] on one code point below 256: [A-Z] and the Latin-1 capitals
    U+00C0..U+00DE (but not the multiplication sign U+00D7) move up by 32. *)
Definition lower_char (c : ascii) : ascii :=
  if in_range 65 90 c || (in_range 192 222 c && negb (Nat.eqb (code c) 215))
  then ascii_of_nat (code c + 32)
  else c.

(** ** Python string methods used by the bot *)

Definition lower (s : string) : string := Str.map lower_char s.

Definition lstrip (s : string) : string := Str.drop_while isspace s.
Definition rstrip (s : string) : string := Str.rev (Str.drop_while isspace (Str.rev s)).
Definition strip (s : string) : string := rstrip (lstrip s).

(** [s.replace(a, b)] for single characters [a] and [b]. *)
Definition replace_char (a b : ascii) (s : string) : string :=
  Str.map (fun c => if Ascii.eqb c a then b else c) s.

Definition startswith (s p : string) : bool := String.prefix p s.

(** ** Python dictionaries *)

Section PyDict.
Variable V : Type.

Definition pydict := list (string * V).

Fixpoint dict_get (k : string) (d : pydict) : option V :=
  match d with
  | [] => None
  | (k', v) :: d' => if String.eqb k k' then Some v else dict_get k d'
  end.

Definition dict_mem (k : string) (d : pydict) : bool :=
  match dict_get k d with Some _ => true | None => false end.

(** [d[k] = v]: an existing key keeps its place, a new key goes last. *)
Fixpoint dict_set (k : string) (v : V) (d : pydict) : pydict :=
  match d with
  | [] => [(k, v)]
  | (k', v') :: d' =>
      if String.eqb k k' then (k', v) :: d' else (k', v') :: dict_set k v d'
  end.

(** [d.pop(k, None)] with the popped value discarded. *)
Fixpoint dict_pop (k : string) (d : pydict) : pydict :=
  match d with
  | [] => []
  | (k', v') :: d' =>
      if String.eqb k k' then d' else (k', v') :: dict_pop k d'
  end.

Definition dict_keys (d : pydict) : list string := List.map fst d.
End PyDict.

Arguments dict_get {V} k d.
Arguments dict_mem {V} k d.
Arguments dict_set {V} k v d.
Arguments dict_pop {V} k d.
Arguments dict_keys {V} d.

(** ** Regular expressions, as Python's backtracking matcher runs them

    Only the constructs [TOP_CHAPTER_RE] uses.  Matching returns every way
    the pattern can match at the start of the text, in the order in which
    the backtracking matcher tries them: greedy repetitions give the longest
    run first, an optional part is tried before it is skipped.  The first
    element of the list is the match Python reports. *)

Inductive regex : Type :=
| Cls (p : ascii -> bool)                         (* one character of a class *)
| Rep (p : ascii -> bool) (lo : nat) (hi : option nat)
                                                  (* class{lo,hi}, greedy; [None] is no upper bound *)
| Cat (r1 r2 : regex)                             (* r1 r2 *)
| Opt (r : regex)                                 (* (?:r)? , greedy *)
| Grp (n : nat) (r : regex).                      (* capturing group number n *)

Definition Lit (c : ascii) : regex := Cls (Ascii.eqb c).
Definition Plus (p : ascii -> bool) : regex := Rep p 1 None.
Definition Star (p : ascii -> bool) : regex := Rep p 0 None.

Declare Scope regex_scope.
Delimit Scope regex_scope with regex.
Infix ">>" := Cat (at level 61, right associativity) : regex_scope.

(** The groups captured so far, most recent first. *)
Definition captures := list (nat * string).

Definition hi_open (hi : option nat) : bool :=
  match hi with Some 0 => false | _ => true end.

(** Greedy [p{lo,hi}] on [s]: the pairs (run, rest), longest run first. *)
Fixpoint rep (p : ascii -> bool) (lo : nat) (hi : option nat) (s : string)
  : list (string * string) :=
  let stop := if Nat.eqb lo 0 then [("", s)] else [] in
  match s with
  | String c s' =>
      if p c && hi_open hi
      then (List.map (fun mr => (String c (fst mr), snd mr))
                     (rep p (Nat.pred lo) (option_map Nat.pred hi) s') ++ stop)%list
      else stop
  | EmptyString => stop
  end.

(** A way to match: the text consumed, the text left, the groups. *)
Definition thread := (string * string * captures)%type.

Fixpoint bt (r : regex) (s : string) (caps : captures) : list thread :=
  match r with
  | Cls p =>
      match s with
      | String c s' => if p c then [(String c "", s', caps)] else []
      | EmptyString => []
      end
  | Rep p lo hi => List.map (fun mr => (fst mr, snd mr, caps)) (rep p lo hi s)
  | Cat r1 r2 =>
      List.flat_map
        (fun t1 : thread =>
           let '(m1, s1, c1) := t1 in
           List.map (fun t2 : thread => let '(m2, s2, c2) := t2 in (m1 ++ m2, s2, c2))
                    (bt r2 s1 c1))
        (bt r1 s caps)
  | Opt r' => (bt r' s caps ++ [("", s, caps)])%list
  | Grp n r' =>
      List.map (fun t : thread => let '(m, s', c) := t in (m, s', (n, m) :: c))
               (bt r' s caps)
  end.

(** [pattern.match]: the preferred match at the start of the text. *)
Definition re_match (r : regex) (s : string) : option thread :=
  match bt r s [] with
  | t :: _ => Some t
  | [] => None
  end.

(** [pattern.search]: the preferred match at the leftmost position that has
    one; the position after the last character is tried as well. *)
Fixpoint re_search (r : regex) (s : string) : option thread :=
  match re_match r s with
  | Some t => Some t
  | None =>
      match s with
      | String _ s' => re_search r s'
      | EmptyString => None
      end
  end.

(** [m.group(n)] for a group that took part in the match. *)
Fixpoint group (n : nat) (caps : captures) : option string :=
  match caps with
  | [] => None
  | (k, m) :: caps' => if Nat.eqb n k then Some m else group n caps'
  end.

(** [TOP_CHAPTER_RE]:
    [([A-Z][a-z]+ \d{1,2}, \d{4})\s+Ch\.\s*([0-9]+(?:\.[0-9]+)?)]
    ([re.MULTILINE] changes [^] and [$] only, which the pattern does not use). *)
Definition TOP_CHAPTER_RE : regex :=
  (Grp 1 (Cls cls_AZ >> Plus cls_az >> Lit " " >> Rep cls_d 1 (Some 2) >>
          Lit "," >> Lit " " >> Rep cls_d 4 (Some 4)) >>
   Plus cls_s >> Lit "C" >> Lit "h" >> Lit "." >> Star cls_s >>
   Grp 2 (Plus cls_09 >> Opt (Lit "." >> Plus cls_09)))%regex.

(** [TOP_CHAPTER_RE.search(text)] followed by
    [m.group(1).strip(), m.group(2).strip()]. *)
Definition search_top_chapter (text : string) : option (string * string) :=
  match re_search TOP_CHAPTER_RE text with
  | None => None
  | Some (_, _, caps) =>
      match group 1 caps, group 2 caps with
      | Some g1, Some g2 => Some (strip g1, strip g2)
      | _, _ => None
      end
  end.

Definition LF : string := String (ascii_of_nat 10) "".

(** *** What a pattern matches, stated without the matcher *)

Definition within (hi : option nat) (n : nat) : Prop :=
  match hi with Some h => n <= h | None => True end.

Inductive matches : regex -> string -> captures -> captures -> Prop :=
| M_Cls p c caps :
    p c = true -> matches (Cls p) (String c "") caps caps
| M_Rep p lo hi m caps :
    Str.all p m = true -> lo <= length m -> within hi (length m) ->
    matches (Rep p lo hi) m caps caps
| M_Cat r1 r2 m1 m2 c0 c1 c2 :
    matches r1 m1 c0 c1 -> matches r2 m2 c1 c2 ->
    matches (Cat r1 r2) (m1 ++ m2) c0 c2
| M_OptTake r m c0 c1 :
    matches r m c0 c1 -> matches (Opt r) m c0 c1
| M_OptSkip r c0 :
    matches (Opt r) "" c0 c0
| M_Grp n r m c0 c1 :
    matches r m c0 c1 -> matches (Grp n r) m c0 ((n, m) :: c1).

Lemma rep_spec p s : forall lo hi m rest,
  In (m, rest) (rep p lo hi s) <->
  s = m ++ rest /\ Str.all p m = true /\ lo <= length m /\ within hi (length m).
Proof.
  induction s as [|c s IH]; intros lo hi m rest.
  - simpl. destruct lo as [|lo]; simpl.
    + split.
      * intros [H|[]]. injection H as <- <-. repeat split; auto.
        destruct hi; simpl; lia.
      * intros (H & _). destruct m; [|discriminate]. simpl in H. subst. now left.
      + split; [intros []|]. intros (H & _ & Hlo & _).
        destruct m; [simpl in Hlo; lia | discriminate].
  - cbn [rep].
    assert (Hstop : In (m, rest) (if Nat.eqb lo 0 then [("", String c s)] else []) <->
                    m = "" /\ rest = String c s /\ lo = 0).
    { destruct lo; simpl; split.
      - intros [H|[]]. injection H as <- <-. auto.
      - intros (-> & -> & _). now left.
      - intros [].
      - intros (_ & _ & H). discriminate. }
    assert (Hgo : p c && hi_open hi = true ->
                  (In (m, rest) (List.map (fun mr => (String c (fst mr), snd mr))
                     (rep p (Nat.pred lo) (option_map Nat.pred hi) s)) <->
                   exists m', m = String c m' /\ s = m' ++ rest /\ Str.all p m' = true /\
                              lo <= S (length m') /\ within hi (S (length m')))).
    { intros Hc. apply andb_true_iff in Hc as [Hp Hh].
      rewrite in_map_iff. split.
      - intros ([m' r'] & Heq & Hin). simpl in Heq. injection Heq as <- <-.
        apply IH in Hin as (-> & Ha & Hlo & Hhi). exists m'. repeat split; auto; try lia.
        destruct hi as [[|h]|]; simpl in *; try discriminate; lia.
      - intros (m' & -> & -> & Ha & Hlo & Hhi). exists (m', rest). split; [reflexivity|].
        apply IH. repeat split; auto; try lia.
        destruct hi as [[|h]|]; simpl in *; try discriminate; lia. }
    destruct (p c && hi_open hi) eqn:Hc.
    + rewrite in_app_iff, Hstop, (Hgo eq_refl). split.
      * intros [(m' & -> & -> & Ha & Hlo & Hhi) | (-> & -> & ->)].
        -- apply andb_true_iff in Hc as [Hp _]. simpl. rewrite Hp, Ha. auto.
        -- simpl. repeat split; auto. destruct hi; simpl; lia.
      * intros (Hs & Ha & Hlo & Hhi). destruct m as [|x m'].
        -- right. simpl in *. repeat split; auto; lia.
        -- left. simpl in Hs. injection Hs as <- ->. simpl in Ha.
           apply andb_true_iff in Ha as [_ Ha]. exists m'. simpl in *. auto.
    + rewrite Hstop. split.
      * intros (-> & -> & ->). simpl. repeat split; auto. destruct hi; simpl; lia.
      * intros (Hs & Ha & Hlo & Hhi). destruct m as [|x m'].
        -- simpl in *. repeat split; auto; lia.
        -- exfalso. simpl in Hs. injection Hs as <- ->. simpl in Ha.
           apply andb_true_iff in Ha as [Hp _]. rewrite Hp in Hc. simpl in Hc.
           destruct hi as [[|h]|]; simpl in *; try discriminate; lia.
Qed.

(** The matcher lists exactly the ways the pattern matches a prefix. *)
Lemma bt_spec r : forall s c m rest c',
  In (m, rest, c') (bt r s c) <-> s = m ++ rest /\ matches r m c c'.
Proof.
  induction r as [p | p lo hi | r1 IH1 r2 IH2 | r IH | n r IH]; intros s c m rest c'.
  - simpl. destruct s as [|x s].
    + split; [intros []|]. intros [Hs Hm]. inversion Hm; subst. discriminate.
    + destruct (p x) eqn:Hp.
      * split.
        -- intros [H|[]]. injection H as <- <- <-. split; [reflexivity | now constructor].
        -- intros [Hs Hm]. inversion Hm; subst. simpl in Hs. injection Hs as -> ->. now left.
      * split; [intros []|]. intros [Hs Hm]. inversion Hm; subst.
        simpl in Hs. injection Hs as -> ->. congruence.
  - simpl. rewrite in_map_iff. split.
    + intros ([m' r'] & Heq & Hin). simpl in Heq. injection Heq as <- <- <-.
      apply rep_spec in Hin as (-> & Ha & Hlo & Hhi). split; [reflexivity | now constructor].
    + intros [Hs Hm]. inversion Hm; subst. exists (m, rest). split; [reflexivity|].
      apply rep_spec. auto.
  - simpl. rewrite in_flat_map. split.
    + intros ([[m1 s1] c1] & H1 & H2). apply in_map_iff in H2 as ([[m2 s2] c2] & Heq & H2).
      injection Heq as <- <- <-. apply IH1 in H1 as [-> H1]. apply IH2 in H2 as [-> H2].
      split; [now rewrite Str.append_assoc | econstructor; eauto].
    + intros [Hs Hm]. inversion Hm; subst. exists (m1, m2 ++ rest, c1). split.
      * apply IH1. split; [now rewrite Str.append_assoc | assumption].
      * apply in_map_iff. exists (m2, rest, c'). split; [reflexivity|]. apply IH2. auto.
  - simpl. rewrite in_app_iff, IH. split.
    + intros [[Hs Hm] | [H|[]]].
      * split; [assumption | now apply M_OptTake].
      * injection H as <- <- <-. split; [reflexivity | apply M_OptSkip].
    + intros [Hs Hm]. inversion Hm; subst.
      * left. auto.
      * right. left. reflexivity.
  - simpl. rewrite in_map_iff. split.
    + intros ([[m' s'] c1] & Heq & Hin). injection Heq as <- <- <-.
      apply IH in Hin as [-> Hin]. split; [reflexivity | now constructor].
    + intros [Hs Hm]. inversion Hm; subst. exists (m, rest, c1). split; [reflexivity|].
      apply IH. auto.
Qed.

Lemma re_match_some r s m rest c :
  re_match r s = Some (m, rest, c) -> s = m ++ rest /\ matches r m [] c.
Proof.
  unfold re_match. destruct (bt r s []) as [|t l] eqn:E; [discriminate|].
  intros H. injection H as ->. apply (bt_spec r s []). rewrite E. now left.
Qed.

Lemma re_match_none r s :
  re_match r s = None <-> (forall m rest c, s = m ++ rest -> ~ matches r m [] c).
Proof.
  unfold re_match. destruct (bt r s []) as [|[[m0 r0] c0] l] eqn:E; split.
  - intros _ m rest c Hs Hm.
    assert (In (m, rest, c) (bt r s [])) by (apply bt_spec; auto).
    rewrite E in H. destruct H.
  - reflexivity.
  - discriminate.
  - intros H. exfalso.
    assert (Hin : In (m0, r0, c0) (bt r s [])) by (rewrite E; now left).
    apply bt_spec in Hin as [Hs Hm]. exact (H _ _ _ Hs Hm).
Qed.

(** [re_search] reports a match at the leftmost position that has one. *)
Lemma re_search_some r s : forall m rest c,
  re_search r s = Some (m, rest, c) ->
  exists pre, s = pre ++ m ++ rest /\ matches r m [] c /\
    (forall pre' m' rest' c', s = pre' ++ m' ++ rest' -> matches r m' [] c' ->
                              length pre <= length pre').
Proof.
  induction s as [|x s IH]; intros m rest c; cbn [re_search];
    destruct (re_match r _) as [[[m0 r0] c0]|] eqn:E; try discriminate.
  - intros H. injection H as <- <- <-. apply re_match_some in E as [Hs Hm].
    exists "". simpl. repeat split; auto. intros; lia.
  - intros H. injection H as <- <- <-. apply re_match_some in E as [Hs Hm].
    exists "". simpl. repeat split; auto. intros; lia.
  - intros H. apply IH in H as (pre & -> & Hm & Hmin).
    exists (String x pre). simpl. repeat split; auto.
    intros pre' m' rest' c' Hs Hm'. destruct pre' as [|y pre'].
    + exfalso. simpl in Hs. rewrite re_match_none in E. exact (E _ _ _ Hs Hm').
    + simpl in Hs. injection Hs as <- Hs. simpl. apply le_n_S. eapply Hmin; eauto.
Qed.

Lemma re_search_none r s :
  re_search r s = None <->
  (forall pre m rest c, s = pre ++ m ++ rest -> ~ matches r m [] c).
Proof.
  induction s as [|x s IH]; cbn [re_search];
    destruct (re_match r _) as [[[m0 r0] c0]|] eqn:E.
  - split; [discriminate|]. intros H. exfalso.
    apply re_match_some in E as [Hs Hm]. exact (H "" _ _ _ Hs Hm).
  - split; [|reflexivity]. intros _ pre m rest c Hs Hm.
    destruct pre; [|discriminate]. rewrite re_match_none in E. simpl in Hs.
    exact (E _ _ _ Hs Hm).
  - split; [discriminate|]. intros H. exfalso.
    apply re_match_some in E as [Hs Hm]. exact (H "" _ _ _ Hs Hm).
  - rewrite IH. split.
    + intros H pre m rest c Hs Hm. destruct pre as [|y pre].
      * rewrite re_match_none in E. simpl in Hs. exact (E _ _ _ Hs Hm).
      * simpl in Hs. injection Hs as <- Hs. exact (H _ _ _ _ Hs Hm).
    + intros H pre m rest c Hs Hm. apply (H (String x pre) m rest c); [|assumption].
      simpl. now rewrite Hs.
Qed.

(** *** The shape of a chapter entry, as [TOP_CHAPTER_RE] accepts it *)

(** [[A-Z][a-z]+ \d{1,2}, \d{4}]: a capitalised word, a day, a year. *)
Definition is_date (d : string) : Prop :=
  exists c w dd yy,
    d = String c (w ++ " " ++ dd ++ ", " ++ yy) /\
    cls_AZ c = true /\
    Str.all cls_az w = true /\ 1 <= length w /\
    Str.all cls_d dd = true /\ 1 <= length dd <= 2 /\
    Str.all cls_d yy = true /\ length yy = 4.

(** [[0-9]+(?:\.[0-9]+)?]: an integer or a decimal. *)
Definition is_number (l : string) : Prop :=
  exists i, Str.all cls_09 i = true /\ 1 <= length i /\
    (l = i \/ exists f, Str.all cls_09 f = true /\ 1 <= length f /\ l = i ++ "." ++ f).

(** [text] holds, after [pre], the date [d], the whitespace [ws1], the
    marker [Ch.], the whitespace [ws2] and the chapter number [l]. *)
Definition entry_at (text pre d ws1 ws2 l rest : string) : Prop :=
  text = pre ++ d ++ ws1 ++ "Ch." ++ ws2 ++ l ++ rest /\
  is_date d /\
  Str.all isspace ws1 = true /\ 1 <= length ws1 /\
  Str.all isspace ws2 = true /\
  is_number l.

Lemma matches_cat r1 r2 m m1 m2 c0 c1 c2 :
  matches r1 m1 c0 c1 -> matches r2 m2 c1 c2 -> m = m1 ++ m2 ->
  matches (Cat r1 r2) m c0 c2.
Proof. intros H1 H2 ->. econstructor; eauto. Qed.

Lemma matches_lit c caps : matches (Lit c) (String c "") caps caps.
Proof. constructor. apply Ascii.eqb_refl. Qed.

Ltac invert_matches :=
  repeat match goal with
  | H : matches (Cat _ _) _ _ _ |- _ => inversion H; subst; clear H
  | H : matches (Grp _ _) _ _ _ |- _ => inversion H; subst; clear H
  | H : matches (Cls _) _ _ _ |- _ => inversion H; subst; clear H
  | H : matches (Rep _ _ _) _ _ _ |- _ => inversion H; subst; clear H
  | H : matches (Opt _) _ _ _ |- _ => inversion H; subst; clear H
  | H : Ascii.eqb _ _ = true |- _ => apply Ascii.eqb_eq in H; subst
  end.

Lemma top_chapter_matches m caps :
  matches TOP_CHAPTER_RE m [] caps <->
  exists d ws1 ws2 l,
    m = d ++ ws1 ++ "Ch." ++ ws2 ++ l /\
    is_date d /\ Str.all isspace ws1 = true /\ 1 <= length ws1 /\
    Str.all isspace ws2 = true /\ is_number l /\
    caps = [(2, l); (1, d)].
Proof.
  split.
  - intros H. unfold TOP_CHAPTER_RE, Lit, Plus, Star in H. invert_matches.
    + exists (String c10 (m1 ++ " " ++ m10 ++ ", " ++ m14)), m0, m5, (m6 ++ "." ++ m3).
      unfold within in *. repeat split; auto.
      * exists c10, m1, m10, m14. repeat split; auto; lia.
      * exists m6. repeat split; auto. right. exists m3. auto.
    + exists (String c10 (m1 ++ " " ++ m10 ++ ", " ++ m14)), m0, m5, m6.
      unfold within in *. repeat split; auto.
      * now rewrite Str.append_nil_r.
      * exists c10, m1, m10, m14. repeat split; auto; lia.
      * exists m6. repeat split; auto.
      * now rewrite Str.append_nil_r.
  - intros (d & ws1 & ws2 & l & -> & Hd & Hw1 & Hl1 & Hw2 & Hl & ->).
    destruct Hd as (c & w & dd & yy & -> & Hc & Hw & Hlw & Hdd & Hldd & Hyy & Hlyy).
    unfold TOP_CHAPTER_RE.
    eapply matches_cat with (m1 := String c (w ++ " " ++ dd ++ ", " ++ yy)); [| |reflexivity].
    { apply M_Grp.
      eapply matches_cat with (m1 := String c ""); [now constructor | | reflexivity].
      eapply matches_cat with (m1 := w); [constructor; simpl; auto | | reflexivity].
      eapply matches_cat with (m1 := " "); [apply matches_lit | | reflexivity].
      eapply matches_cat with (m1 := dd); [constructor; simpl; auto; lia | | reflexivity].
      eapply matches_cat with (m1 := ","); [apply matches_lit | | reflexivity].
      eapply matches_cat with (m1 := " "); [apply matches_lit | | reflexivity].
      constructor; simpl; auto; lia. }
    eapply matches_cat with (m1 := ws1); [constructor; simpl; auto | | reflexivity].
    eapply matches_cat with (m1 := "C"); [apply matches_lit | | reflexivity].
    eapply matches_cat with (m1 := "h"); [apply matches_lit | | reflexivity].
    eapply matches_cat with (m1 := "."); [apply matches_lit | | reflexivity].
    eapply matches_cat with (m1 := ws2); [constructor; simpl; auto; lia | | reflexivity].
    apply M_Grp. destruct Hl as (i & Hi & Hli & [-> | (f & Hf & Hlf & ->)]).
    + eapply matches_cat with (m1 := i) (m2 := "");
        [constructor; simpl; auto | apply M_OptSkip | now rewrite Str.append_nil_r].
    + eapply matches_cat with (m1 := i); [constructor; simpl; auto | | reflexivity].
      apply M_OptTake.
      eapply matches_cat with (m1 := "."); [apply matches_lit | | reflexivity].
      constructor; simpl; auto.
Qed.

(** *** [strip] leaves the two groups as they are *)

Ltac class_arith :=
  unfold cls_AZ, cls_az, cls_09, cls_d, cls_s, isspace, in_range in *;
  repeat match goal with
  | H : _ && _ = true |- _ => apply andb_true_iff in H as [? ?]
  | H : Nat.leb _ _ = true |- _ => apply Nat.leb_le in H
  end;
  repeat match goal with
  | |- _ || _ = false => apply orb_false_iff; split
  | |- _ && _ = false => apply andb_false_iff
  end;
  rewrite ?Nat.eqb_neq, ?Nat.leb_gt; try lia.

Lemma digit_not_space c : cls_d c = true -> isspace c = false.
Proof.
  intros H. class_arith.
Qed.

Lemma capital_not_space c : cls_AZ c = true -> isspace c = false.
Proof.
  intros H. class_arith.
Qed.

Lemma all_last p s :
  Str.all p s = true -> 1 <= length s ->
  exists t x, s = t ++ String x "" /\ p x = true.
Proof.
  induction s as [|c s IH]; simpl; intros Ha Hl; [lia|].
  apply andb_true_iff in Ha as [Hc Ha]. destruct s as [|c' s'].
  - exists "", c. auto.
  - destruct (IH Ha) as (t & x & -> & Hx); [simpl; lia|].
    exists (String c t), x. auto.
Qed.

Lemma strip_id s c s' t x :
  s = String c s' -> s = t ++ String x "" ->
  isspace c = false -> isspace x = false ->
  strip s = s.
Proof.
  intros Hhead Hlast Hc Hx. unfold strip, lstrip, rstrip.
  rewrite Hhead at 1. rewrite Str.drop_while_head by exact Hc. rewrite <- Hhead.
  rewrite Hlast. rewrite Str.rev_append.
  change (Str.rev (String x "") ++ Str.rev t) with (String x (Str.rev t)).
  rewrite Str.drop_while_head by exact Hx.
  change (Str.rev (String x (Str.rev t))) with (Str.rev (Str.rev t) ++ String x "").
  now rewrite Str.rev_involutive.
Qed.

Lemma strip_date d : is_date d -> strip d = d.
Proof.
  intros (c & w & dd & yy & -> & Hc & _ & _ & _ & _ & Hyy & Hlen).
  destruct (all_last _ _ Hyy) as (t & x & -> & Hx); [lia|].
  eapply strip_id with (t := String c (w ++ " " ++ dd ++ ", " ++ t)) (x := x).
  - reflexivity.
  - simpl. repeat (rewrite Str.append_assoc; simpl). reflexivity.
  - now apply capital_not_space.
  - now apply digit_not_space.
Qed.

Lemma strip_number l : is_number l -> strip l = l.
Proof.
  intros (i & Hi & Hli & Hl).
  assert (Hhead : exists c s', l = String c s' /\ isspace c = false).
  { destruct i as [|c i']; [simpl in Hli; lia|]. simpl in Hi.
    apply andb_true_iff in Hi as [Hc _]. apply digit_not_space in Hc.
    destruct Hl as [-> | (f & _ & _ & ->)]; simpl; eauto. }
  assert (Hlast : exists t x, l = t ++ String x "" /\ isspace x = false).
  { destruct Hl as [-> | (f & Hf & Hlf & ->)].
    - destruct (all_last _ _ Hi Hli) as (t & x & -> & Hx).
      exists t, x. split; [reflexivity | now apply digit_not_space].
    - destruct (all_last _ _ Hf Hlf) as (t & x & -> & Hx).
      exists (i ++ "." ++ t), x. split; [|now apply digit_not_space].
      now rewrite !Str.append_assoc. }
  destruct Hhead as (c & s' & Hh & Hc). destruct Hlast as (t & x & Ht & Hx).
  eapply strip_id; eauto.
Qed.

(** *** The number is taken whole

    The greedy repetitions make the reported match take every digit there
    is, and the decimal part whenever a point followed by a digit is there. *)

(** After the number [l] the text [rest] does not go on with a digit, nor,
    when [l] has no decimal part, with a point and a digit. *)
Definition number_ends (l rest : string) : Prop :=
  (forall c r, rest = String c r -> cls_09 c = false) /\
  (Str.all cls_09 l = true ->
   forall c r, rest = String "." (String c r) -> cls_09 c = false).

Lemma rep_from_zero_nonempty p s : rep p 0 None s <> [].
Proof.
  destruct s as [|c s]; simpl; [discriminate|].
  destruct (p c); simpl; [|discriminate].
  intros H. apply app_eq_nil in H as [_ H]. discriminate.
Qed.

(** The first way a greedy unbounded repetition matches leaves no
    character of the class next. *)
Lemma rep_head p s : forall lo m rest tl,
  rep p lo None s = (m, rest) :: tl ->
  forall c r, rest = String c r -> p c = false.
Proof.
  induction s as [|x s IH]; intros lo m rest tl H c r Hrest.
  - simpl in H. destruct (Nat.eqb lo 0); [|discriminate].
    injection H as <- <- <-. discriminate.
  - cbn [rep] in H. destruct (p x) eqn:Hx; cbn [andb hi_open option_map] in H.
    + destruct (rep p (Nat.pred lo) None s) as [|[m' r'] tl'] eqn:E.
      * exfalso. simpl in H. destruct lo as [|lo]; [|discriminate].
        exact (rep_from_zero_nonempty p s E).
      * simpl in H. injection H as <- <- <-. exact (IH _ _ _ _ E c r Hrest).
    + destruct (Nat.eqb lo 0); [|discriminate].
      injection H as <- <- <-. injection Hrest as <- <-. exact Hx.
Qed.

Lemma flat_map_head (A B : Type) (f : A -> list B) l y tl :
  List.flat_map f l = y :: tl ->
  exists x tl', In x l /\ f x = y :: tl'.
Proof.
  induction l as [|x l IH]; simpl; [discriminate|].
  destruct (f x) as [|y' t'] eqn:E; simpl.
  - intros H. destruct (IH H) as (x' & tl' & Hin & Hx). eauto.
  - intros H. injection H as <- <-. exists x, t'. auto.
Qed.

(** The first match of [r1 r2] ends with the first match of [r2] after some
    match of [r1]. *)
Lemma bt_cat_head r1 r2 s c m rest c' tl :
  bt (Cat r1 r2) s c = (m, rest, c') :: tl ->
  exists m1 s1 c1 m2 tl2,
    In (m1, s1, c1) (bt r1 s c) /\
    bt r2 s1 c1 = (m2, rest, c') :: tl2 /\ m = m1 ++ m2.
Proof.
  cbn [bt]. intros H. apply flat_map_head in H as ([[m1 s1] c1] & tl' & Hin & H).
  destruct (bt r2 s1 c1) as [|[[m2 s2] c2] tl2] eqn:E; [discriminate|].
  simpl in H. injection H as <- <- <- <-. exists m1, s1, c1, m2, tl2. auto.
Qed.

Lemma bt_grp_head n r s c m rest c' tl :
  bt (Grp n r) s c = (m, rest, c') :: tl ->
  exists c1 tl1, bt r s c = (m, rest, c1) :: tl1 /\ c' = (n, m) :: c1.
Proof.
  cbn [bt]. destruct (bt r s c) as [|[[m1 s1] c1] tl1]; [discriminate|].
  simpl. intros H. injection H as <- <- <- <-. eauto.
Qed.

Lemma point_not_digit : cls_09 "." = false.
Proof. reflexivity. Qed.

Lemma bt_opt_nonempty r s c : bt (Opt r) s c <> [].
Proof. cbn [bt]. intros H. apply app_eq_nil in H as [_ H]. discriminate. Qed.

(** When [r2] always matches, the first match of [r1 r2] starts with the
    first match of [r1]. *)
Lemma bt_cat_head_total r1 r2 s c m rest c' tl :
  (forall s1 c1, bt r2 s1 c1 <> []) ->
  bt (Cat r1 r2) s c = (m, rest, c') :: tl ->
  exists m1 s1 c1 tl1 m2 tl2,
    bt r1 s c = (m1, s1, c1) :: tl1 /\
    bt r2 s1 c1 = (m2, rest, c') :: tl2 /\ m = m1 ++ m2.
Proof.
  intros Htotal. cbn [bt].
  destruct (bt r1 s c) as [|[[m1 s1] c1] tl1]; [discriminate|].
  cbn [List.flat_map]. specialize (Htotal s1 c1).
  destruct (bt r2 s1 c1) as [|[[m2 s2] c2] tl2] eqn:E2; [congruence|].
  simpl. intros H. injection H as <- <- <- <-.
  exists m1, s1, c1, tl1, m2, tl2. repeat split; try reflexivity; exact E2.
Qed.

Lemma bt_plus_head p s c m rest c' tl :
  bt (Plus p) s c = (m, rest, c') :: tl ->
  c' = c /\ Str.all p m = true /\ forall x r, rest = String x r -> p x = false.
Proof.
  unfold Plus. cbn [bt].
  destruct (rep p 1 None s) as [|[i s1] L] eqn:Hrep; [discriminate|].
  simpl. intros H. injection H as <- <- <- <-. split; [reflexivity|]. split.
  - eapply (rep_spec p s 1 None i s1). rewrite Hrep. now left.
  - exact (rep_head _ _ _ Hrep).
Qed.

(** The first match of [[0-9]+(?:\.[0-9]+)?]. *)
Lemma number_head s c m rest c' tl :
  bt (Plus cls_09 >> Opt (Lit "." >> Plus cls_09))%regex s c = (m, rest, c') :: tl ->
  number_ends m rest.
Proof.
  intros H.
  apply bt_cat_head_total in H
    as (i & s1 & c1 & tl1 & m2 & tl2 & Hint & Hopt & ->); [|apply bt_opt_nonempty].
  apply bt_plus_head in Hint as (-> & Hi & Hend1).
  change (bt (Opt ?r) s1 c) with (bt r s1 c ++ [("", s1, c)])%list in Hopt.
  destruct (bt (Lit "." >> Plus cls_09)%regex s1 c) as [|[[mx rx] cx] tx] eqn:Hx.
  - simpl in Hopt. injection Hopt as <- <- <- <-. split; [exact Hend1|].
    intros _ d r ->. destruct (cls_09 d) eqn:Hd; [exfalso|reflexivity].
    assert (Hin : In (String "." (String d ""), r, c)
                     (bt (Lit "." >> Plus cls_09)%regex (String "." (String d r)) c)).
    { apply bt_spec. split; [reflexivity|].
      eapply matches_cat with (m1 := ".") (m2 := String d "");
        [apply matches_lit | | reflexivity].
      constructor; simpl; [now rewrite Hd | lia | exact I]. }
    rewrite Hx in Hin. destruct Hin.
  - simpl in Hopt. injection Hopt as <- <- <- <-.
    apply bt_cat_head in Hx as (m1 & s2 & c1 & f & tl3 & Hin & Hf & ->).
    apply bt_spec in Hin as [-> Hm1]. unfold Lit in Hm1. inversion Hm1; subst.
    apply bt_plus_head in Hf as (_ & _ & Hend2). split; [exact Hend2|].
    intros Hall. exfalso. rewrite !Str.all_append in Hall.
    apply andb_true_iff in Hall as [_ Hall]. apply andb_true_iff in Hall as [Hall _].
    simpl in Hall. match goal with
      | Hc : Ascii.eqb _ _ = true |- _ => apply Ascii.eqb_eq in Hc; subst
      end.
    rewrite point_not_digit in Hall. discriminate.
Qed.

(** The match reported at a position takes the number whole. *)
Lemma top_chapter_head s m rest caps tl :
  bt TOP_CHAPTER_RE s [] = (m, rest, caps) :: tl ->
  exists l, group 2 caps = Some l /\ number_ends l rest.
Proof.
  unfold TOP_CHAPTER_RE. intros H.
  do 6 (apply bt_cat_head in H as (? & ? & ? & ? & ? & _ & H & _)).
  apply bt_grp_head in H as (c1 & tl1 & H & ->).
  apply number_head in H. eexists. split; [reflexivity | exact H].
Qed.

Lemma re_search_head r s t :
  re_search r s = Some t -> exists s' tl, bt r s' [] = t :: tl.
Proof.
  induction s as [|x s IH]; cbn [re_search]; unfold re_match.
  - destruct (bt r "" []) as [|t' tl] eqn:E; [discriminate|].
    intros H. injection H as <-. eauto.
  - destruct (bt r (String x s) []) as [|t' tl] eqn:E; [exact IH|].
    intros H. injection H as <-. eauto.
Qed.

(** What [search_top_chapter] returns: the date and the number of the
    leftmost entry of the text. *)
Lemma search_top_chapter_some text d l :
  search_top_chapter text = Some (d, l) ->
  exists pre ws1 ws2 rest,
    entry_at text pre d ws1 ws2 l rest /\
    number_ends l rest /\
    (forall pre' d' ws1' ws2' l' rest',
        entry_at text pre' d' ws1' ws2' l' rest' -> length pre <= length pre').
Proof.
  unfold search_top_chapter.
  destruct (re_search TOP_CHAPTER_RE text) as [[[m rest] caps]|] eqn:E; [|discriminate].
  destruct (re_search_head _ _ E) as (s' & tl & Hhead).
  apply top_chapter_head in Hhead as (l1 & Hl1eq & Hends).
  apply re_search_some in E as (pre & Htext & Hm & Hmin).
  apply top_chapter_matches in Hm as (d0 & ws1 & ws2 & l0 & -> & Hd & Hw1 & Hl1 & Hw2 & Hl & ->).
  simpl in Hl1eq. injection Hl1eq as <-.
  simpl. rewrite (strip_date Hd), (strip_number Hl). intros H. injection H as <- <-.
  exists pre, ws1, ws2, rest. split; [|split; [exact Hends|]].
  - unfold entry_at. repeat split; auto.
    rewrite Htext. now rewrite !Str.append_assoc.
  - intros pre' d' ws1' ws2' l' rest' (Ht' & Hd' & Hw1' & Hl1' & Hw2' & Hl').
    apply (Hmin pre' (d' ++ ws1' ++ "Ch." ++ ws2' ++ l') rest' [(2, l'); (1, d')]).
    + rewrite Ht'. now rewrite !Str.append_assoc.
    + apply top_chapter_matches. exists d', ws1', ws2', l'. repeat split; auto.
Qed.

Lemma search_top_chapter_none text :
  search_top_chapter text = None <->
  ~ exists pre d ws1 ws2 l rest, entry_at text pre d ws1 ws2 l rest.
Proof.
  unfold search_top_chapter. split.
  - destruct (re_search TOP_CHAPTER_RE text) as [[[m rest] caps]|] eqn:E.
    + apply re_search_some in E as (pre & Htext & Hm & _).
      apply top_chapter_matches in Hm as (d0 & ws1 & ws2 & l0 & -> & _ & _ & _ & _ & _ & ->).
      simpl. discriminate.
    + intros _ (pre & d & ws1 & ws2 & l & rest & Ht & Hd & Hw1 & Hl1 & Hw2 & Hl).
      rewrite re_search_none in E.
      apply (E pre (d ++ ws1 ++ "Ch." ++ ws2 ++ l) rest [(2, l); (1, d)]).
      * rewrite Ht. now rewrite !Str.append_assoc.
      * apply top_chapter_matches. exists d, ws1, ws2, l. repeat split; auto.
  - intros Hno. destruct (re_search TOP_CHAPTER_RE text) as [[[m rest] caps]|] eqn:E;
      [|reflexivity].
    exfalso. apply Hno.
    apply re_search_some in E as (pre & Htext & Hm & _).
    apply top_chapter_matches in Hm as (d0 & ws1 & ws2 & l0 & -> & Hd & Hw1 & Hl1 & Hw2 & Hl & ->).
    exists pre, d0, ws1, ws2, l0, rest. unfold entry_at. repeat split; auto.
    rewrite Htext. now rewrite !Str.append_assoc.
Qed.

(** ** Effects: results, the world, the libraries *)

(** A Python call returns or raises; [Raise e] carries [str(e)]. *)
Inductive result (A : Type) : Type :=
| Ok (a : A)
| Raise (e : string).

Arguments Ok {A} a.
Arguments Raise {A} e.

(** The JSON objects inside the state document map strings to strings:
    the [tracked] table [{name: url}] and the records
    [{"date": .., "ch": .., "url": ..}]. *)
Definition entry : Type := pydict string.

(** The state document: the key ["tracked"] and one key
    ["latest:<name>"] per series seen. *)
Definition State : Type := pydict entry.

(** What the bot does to the outside, in the order it does it. *)
Inductive event : Type :=
| Fetched (url : string)        (* [session.get(url)] was issued *)
| Sent (msg : string)           (* [channel.send(msg)] returned *)
| Deferred                      (* [interaction.response.defer] *)
| Replied (msg : string)        (* [send_message] / [followup.send] *)
| Printed (line : string)       (* [print] *)
| Saved (doc : string).         (* [state.json] now holds [doc] *)

(** [file] is the text of [state.json], [None] when there is no file. *)
Record World : Type := mkWorld {
  file : option string;
  trace : list event
}.

(** The libraries and the environment of one run of an operation. *)
Record Env : Type := mkEnv {
  (* aiohttp: [session.get], [raise_for_status], [r.text()] *)
  http_get : string -> result string;
  (* [BeautifulSoup(html, "html.parser").get_text("\n")] *)
  soup_get_text : string -> result string;
  (* [json.load] on the text of the file *)
  json_load : string -> result State;
  (* [open(STATE_FILE, "w")] for the document about to be written *)
  open_w : string -> result unit;
  (* [client.get_channel(CHANNEL_ID)], and [channel.send] of what it returns *)
  get_channel : option (string -> result unit);
  (* [str(CHANNEL_ID)] *)
  CHANNEL_ID : string;
  (* [str.title] *)
  str_title : string -> string
}.

(** *** A state-and-exception monad

    [S] is whatever the code mutates; it survives a raise. *)

Definition M (S A : Type) : Type := S -> result A * S.

Definition ret {S A : Type} (a : A) : M S A := fun s => (Ok a, s).

Definition bind {S A B : Type} (m : M S A) (k : A -> M S B) : M S B :=
  fun s =>
    match m s with
    | (Ok a, s') => k a s'
    | (Raise e, s') => (Raise e, s')
    end.

(** [try: body  except Exception as e: handler(e)] *)
Definition try_except {S A : Type} (body : M S A) (handler : string -> M S A) : M S A :=
  fun s =>
    match body s with
    | (Ok a, s') => (Ok a, s')
    | (Raise e, s') => handler e s'
    end.

Definition lift {S A : Type} (r : result A) : M S A := fun s => (r, s).

Declare Scope monad_scope.
Delimit Scope monad_scope with monad.
Notation "x <- m ;; k" := (bind m (fun x => k))
  (at level 100, m at next level, right associativity) : monad_scope.
Notation "m ;;; k" := (bind m (fun _ => k))
  (at level 100, right associativity) : monad_scope.
Open Scope monad_scope.

Definition emit (e : event) : M World unit :=
  fun w => (Ok tt, mkWorld (file w) (trace w ++ [e])%list).

Definition print (line : string) : M World unit := emit (Printed line).
Definition reply (msg : string) : M World unit := emit (Replied msg).

(** ** The state file *)

Definition DQ : string := String (ascii_of_nat 34) "".
Definition BSL : string := String (ascii_of_nat 92) "".

Definition hex_digit (n : nat) : string :=
  String (ascii_of_nat (if Nat.ltb n 10 then 48 + n else 87 + n)) "".

(** [json.encoder.py_encode_basestring]: the escapes of [ESCAPE_DCT]. *)
Definition json_escape_char (c : ascii) : string :=
  let n := code c in
  if Nat.eqb n 34 then BSL ++ DQ
  else if Nat.eqb n 92 then BSL ++ BSL
  else if Nat.eqb n 8 then BSL ++ "b"
  else if Nat.eqb n 12 then BSL ++ "f"
  else if Nat.eqb n 10 then BSL ++ "n"
  else if Nat.eqb n 13 then BSL ++ "r"
  else if Nat.eqb n 9 then BSL ++ "t"
  else if Nat.ltb n 32 then BSL ++ "u00" ++ hex_digit (n / 16) ++ hex_digit (n mod 16)
  else String c "".

Fixpoint json_escape (s : string) : string :=
  match s with
  | EmptyString => EmptyString
  | String c s' => json_escape_char c ++ json_escape s'
  end.

Definition json_string (s : string) : string := DQ ++ json_escape s ++ DQ.

(** The members of an object at one indentation, with [",\n" + indent]
    between them. *)
Fixpoint json_members (A : Type) (enc : A -> string) (indent : string)
  (d : pydict A) : string :=
  match d with
  | [] => ""
  | [(k, v)] => json_string k ++ ": " ++ enc v
  | (k, v) :: d' =>
      json_string k ++ ": " ++ enc v ++ "," ++ LF ++ indent ++ json_members enc indent d'
  end.

(** A dict at nesting depth [outer]/[inner] indentation, [indent=2]. *)
Definition json_object (A : Type) (enc : A -> string) (outer inner : string)
  (d : pydict A) : string :=
  match d with
  | [] => "{}"
  | _ => "{" ++ LF ++ inner ++ json_members enc inner d ++ LF ++ outer ++ "}"
  end.

(** [json.dumps(state, indent=2, ensure_ascii=False)] *)
Definition json_dump (state : State) : string :=
  json_object (json_object json_string "  " "    ") "" "  " state.

(** [load_state] *)
Definition load_state (env : Env) : M World State :=
  fun w =>
    match file w with
    | None => (Ok [], w)
    | Some doc => (json_load env doc, w)
    end.

(** What [open(STATE_FILE, "w")] and the writes of [json.dump] do to the
    file, one step at a time. *)
Inductive fs_op : Type :=
| Truncate                      (* [open(.., "w")]: the file is emptied *)
| Append (c : ascii).           (* one more character reaches the file *)

Definition apply_fs_op (f : option string) (op : fs_op) : option string :=
  match op with
  | Truncate => Some ""
  | Append c =>
      match f with
      | Some s => Some (s ++ String c "")
      | None => Some (String c "")
      end
  end.

Definition run_fs_ops (ops : list fs_op) (f : option string) : option string :=
  List.fold_left apply_fs_op ops f.

Definition save_state_ops (state : State) : list fs_op :=
  Truncate :: List.map Append (list_ascii_of_string (json_dump state)).

(** [save_state]: when the file cannot be opened for writing it is left as
    it was; otherwise all the steps run. *)
Definition save_state (env : Env) (state : State) : M World unit :=
  fun w =>
    let doc := json_dump state in
    match open_w env doc with
    | Raise e => (Raise e, w)
    | Ok _ =>
        (Ok tt, mkWorld (run_fs_ops (save_state_ops state) (file w))
                        (trace w ++ [Saved doc])%list)
    end.

(** A save cut short after [k] steps. *)
Definition save_state_interrupted (k : nat) (state : State) (f : option string)
  : option string :=
  run_fs_ops (List.firstn k (save_state_ops state)) f.

Definition get_tracked (state : State) : entry :=
  match dict_get "tracked" state with
  | Some tracked => tracked
  | None => []
  end.

Definition set_tracked (state : State) (tracked : entry) : State :=
  dict_set "tracked" tracked state.

(** [fetch_html] *)
Definition fetch_html (env : Env) (url : string) : M World string :=
  emit (Fetched url) ;;; lift (http_get env url).

(** [parse_latest_chapter] *)
Definition parse_latest_chapter (env : Env) (html : string)
  : result (option (string * string)) :=
  match soup_get_text env html with
  | Raise e => Raise e
  | Ok text => Ok (search_top_chapter text)
  end.

(** [normalize_name] *)
Definition normalize_name (name : string) : string :=
  replace_char " " "_" (lower (strip name)).

(** [looks_like_viz_chapters_url] *)
Definition looks_like_viz_chapters_url (url : string) : bool :=
  startswith url "https://www.viz.com/shonenjump/chapters/".

(** ** The poll loop *)

(** The record stored under ["latest:<name>"]. *)
Definition chapter_record (date ch url : string) : entry :=
  [("date", date); ("ch", ch); ("url", url)].

(** [prev.get(key) != value] *)
Definition get_ne (prev : entry) (key value : string) : bool :=
  match dict_get key prev with
  | Some v => negb (String.eqb v value)
  | None => true
  end.

(** U+1F4E3 as the bytes of its UTF-8 encoding. *)
Definition MEGAPHONE : string :=
  String (ascii_of_nat 240) (String (ascii_of_nat 159)
    (String (ascii_of_nat 147) (String (ascii_of_nat 163) ""))).

Definition notification (env : Env) (name latest_ch latest_date url : string) : string :=
  MEGAPHONE ++ " **New chapter detected!**" ++ LF ++
  "Series: **" ++ str_title env (replace_char "_" " " name) ++ "**" ++ LF ++
  "New: **Ch. " ++ latest_ch ++ "** (" ++ latest_date ++ ")" ++ LF ++
  url.

(** [await channel.send(msg)] *)
Definition channel_send (send : string -> result unit) (msg : string) : M World unit :=
  fun w =>
    match send msg with
    | Raise e => (Raise e, w)
    | Ok _ => emit (Sent msg) w
    end.

(** Inside [poll_updates] the code mutates the dict [state] and the world. *)
Definition Poll : Type := (State * World)%type.

Definition on_world {A : Type} (m : M World A) : M Poll A :=
  fun sw => let (r, w') := m (snd sw) in (r, (fst sw, w')).

Definition get_state : M Poll State := fun sw => (Ok (fst sw), sw).

(** [state[key] = value] *)
Definition state_set (key : string) (value : entry) : M Poll unit :=
  fun sw => (Ok tt, (dict_set key value (fst sw), snd sw)).

(** The body of the [try] for one tracked series. *)
Definition poll_item_body (env : Env) (send : string -> result unit)
  (name url : string) : M Poll unit :=
  html <- on_world (fetch_html env url) ;;
  latest <- lift (parse_latest_chapter env html) ;;
  match latest with
  | None =>
      on_world (print ("[WARN] Could not parse latest chapter for " ++ name))
  | Some (latest_date, latest_ch) =>
      let state_key := "latest:" ++ name in
      state <- get_state ;;
      match dict_get state_key state with
      | None =>
          state_set state_key (chapter_record latest_date latest_ch url) ;;;
          state <- get_state ;;
          on_world (save_state env state) ;;;
          on_world (print ("[INIT] " ++ name ++ ": Ch. " ++ latest_ch ++
                           " (" ++ latest_date ++ ")"))
      | Some prev =>
          if get_ne prev "ch" latest_ch || get_ne prev "date" latest_date then
            on_world (channel_send send
                        (notification env name latest_ch latest_date url)) ;;;
            state_set state_key (chapter_record latest_date latest_ch url) ;;;
            state <- get_state ;;
            on_world (save_state env state) ;;;
            on_world (print ("[NOTIFIED] " ++ name ++ ": Ch. " ++ latest_ch ++
                             " (" ++ latest_date ++ ")"))
          else
            on_world (print ("[OK] " ++ name ++ ": no change (still Ch. " ++
                             latest_ch ++ ")"))
      end
  end.

(** One turn of the [for] loop: the [try] and its [except Exception]. *)
Definition poll_item (env : Env) (send : string -> result unit)
  (name url : string) : M Poll unit :=
  try_except (poll_item_body env send name url)
             (fun e => on_world (print ("[ERROR] " ++ name ++ ": " ++ e))).

(** [for name, url in tracked.items(): ...] *)
Fixpoint poll_loop (env : Env) (send : string -> result unit)
  (items : list (string * string)) : M Poll unit :=
  match items with
  | [] => ret tt
  | (name, url) :: rest =>
      poll_item env send name url ;;; poll_loop env send rest
  end.

(** [poll_updates] *)
Definition poll_updates (env : Env) : M World unit :=
  state <- load_state env ;;
  let tracked := get_tracked state in
  match tracked with
  | [] => print "[OK] No tracked series. Use /track to add some."
  | _ =>
      match get_channel env with
      | None =>
          print "[ERROR] Could not find channel. Check CHANNEL_ID and bot permissions."
      | Some send =>
          fun w => let (r, sw) := poll_loop env send tracked (state, w) in (r, snd sw)
      end
  end.

(** ** The slash commands *)

(** Lines 177-183 of [track], on the dict [state]. *)
Definition track_update (name_norm url latest_date latest_ch : string)
  (state : State) : State :=
  let tracked := dict_set name_norm url (get_tracked state) in
  let state := set_tracked state tracked in
  dict_set ("latest:" ++ name_norm) (chapter_record latest_date latest_ch url) state.

(** [track]; the value [None] of the [try] block stands for its [return]s. *)
Definition track (env : Env) (name url : string) : M World unit :=
  let name_norm := normalize_name name in
  if negb (looks_like_viz_chapters_url url) then
    reply ("That URL doesn't look like a VIZ Shonen Jump *chapters* page." ++ LF ++
           "Example: https://www.viz.com/shonenjump/chapters/one-piece")
  else
    emit Deferred ;;;
    fetched <-
      try_except
        (html <- fetch_html env url ;;
         latest <- lift (parse_latest_chapter env html) ;;
         match latest with
         | None =>
             reply ("I could fetch the page, but I couldn't find a chapter entry to parse. " ++
                    "Double-check the URL is a VIZ chapters listing.") ;;;
             ret None
         | Some l => ret (Some l)
         end)
        (fun e => reply ("Couldn't fetch that URL: `" ++ e ++ "`") ;;; ret None) ;;
    match fetched with
    | None => ret tt
    | Some (latest_date, latest_ch) =>
        state <- load_state env ;;
        save_state env (track_update name_norm url latest_date latest_ch state) ;;;
        reply ("Tracking **" ++ name_norm ++ "**" ++ LF ++
               "Baseline set to **Ch. " ++ latest_ch ++ "** (" ++ latest_date ++ ")." ++ LF ++
               "I'll post updates in <#" ++ CHANNEL_ID env ++ ">.")
    end.

(** Lines 206-208 of [untrack], on the dict [state]. *)
Definition untrack_update (name_norm : string) (state : State) : State :=
  let tracked := dict_pop name_norm (get_tracked state) in
  let state := set_tracked state tracked in
  dict_pop ("latest:" ++ name_norm) state.

(** [untrack] *)
Definition untrack (env : Env) (name : string) : M World unit :=
  let name_norm := normalize_name name in
  state <- load_state env ;;
  let tracked := get_tracked state in
  if negb (dict_mem name_norm tracked) then
    reply ("Not tracking **" ++ name_norm ++ "**. Use `/list` to see tracked series.")
  else
    save_state env (untrack_update name_norm state) ;;;
    reply ("Untracked **" ++ name_norm ++ "**.").

(** ** Concrete runs

    A page, a decoder and the environments used to run the operations on
    explicit inputs. *)

Definition ONE_PIECE_URL : string := "https://www.viz.com/shonenjump/chapters/one-piece".

(** A decoder that knows the documents [save_state] writes for the listed
    states and rejects every other text, as [json.load] rejects text that
    is not JSON. *)
Fixpoint json_load_table (known : list State) (doc : string) : result State :=
  match known with
  | [] => Raise "Expecting value: line 1 column 1 (char 0)"
  | st :: known' =>
      if String.eqb doc (json_dump st) then Ok st else json_load_table known' doc
  end.

(** An environment in which [ONE_PIECE_URL] serves the text [page] (and every
    other URL fails), [get_text] returns the page as it is, the file can be
    written and the channel is [channel]. *)
Definition env_with (page : string) (known : list State)
  (channel : option (string -> result unit)) : Env :=
  mkEnv (fun url => if String.eqb url ONE_PIECE_URL then Ok page
                    else Raise "404, message='Not Found'")
        (fun html => Ok html)
        (json_load_table known)
        (fun _ => Ok tt)
        channel
        "1234"
        (fun s => s).

Definition channel_ok : string -> result unit := fun _ => Ok tt.
Definition channel_down : string -> result unit :=
  fun _ => Raise "503 Service Unavailable".

Definition page_1171 : string := "One Piece  January 18, 2026 Ch. 1171 FREE".
Definition page_1172 : string := "One Piece  January 25, 2026 Ch. 1172 FREE".
Definition page_empty : string := "Page not found".

(** The state after [/track "One Piece"] found chapter 1171. *)
Definition state_1171 : State :=
  [("tracked", [("one_piece", ONE_PIECE_URL)]);
   ("latest:one_piece", chapter_record "January 18, 2026" "1171" ONE_PIECE_URL)].

Definition state_1172 : State :=
  [("tracked", [("one_piece", ONE_PIECE_URL)]);
   ("latest:one_piece", chapter_record "January 25, 2026" "1172" ONE_PIECE_URL)].

Definition world_empty : World := mkWorld None [].
Definition world_1171 : World := mkWorld (Some (json_dump state_1171)) [].

(** ** Saving and loading *)

Lemma run_fs_ops_appends cs : forall s,
  run_fs_ops (List.map Append cs) (Some s) = Some (s ++ string_of_list_ascii cs).
Proof.
  induction cs as [|c cs IH]; intros s; simpl.
  - now rewrite Str.append_nil_r.
  - unfold run_fs_ops in IH. rewrite IH, Str.append_assoc. reflexivity.
Qed.

(** A save that runs to its end leaves exactly the new document. *)
Lemma save_state_ops_complete state f :
  run_fs_ops (save_state_ops state) f = Some (json_dump state).
Proof.
  unfold save_state_ops. change (run_fs_ops (Truncate :: ?l) f) with (run_fs_ops l (Some "")).
  rewrite run_fs_ops_appends. simpl. now rewrite string_of_list_ascii_of_string.
Qed.

Lemma save_state_ok env state w :
  open_w env (json_dump state) = Ok tt ->
  save_state env state w =
    (Ok tt, mkWorld (Some (json_dump state)) (trace w ++ [Saved (json_dump state)])).
Proof.
  intros H. unfold save_state. rewrite H. now rewrite save_state_ops_complete.
Qed.

(** The events an operation adds to the trace. *)
Definition is_saved (e : event) : bool :=
  match e with Saved _ => true | _ => false end.


(** The URLs requested, in order. *)
Fixpoint fetched (evs : list event) : list string :=
  match evs with
  | [] => []
  | Fetched url :: evs' => url :: fetched evs'
  | _ :: evs' => fetched evs'
  end.

Lemma fetched_app a b : fetched (a ++ b) = (fetched a ++ fetched b)%list.
Proof.
  induction a as [|e a IH]; simpl; [reflexivity|].
  destruct e; simpl; now rewrite IH.
Qed.

(** ** Properties of the operations *)

(** C10.  When the normalised name is not a key of the tracked table,
    [untrack] answers "Not tracking" and does nothing else: the file is what
    it was and the reply is the only event, so [save_state] was not called. *)
Theorem untrack_unknown_is_read_only (env : Env) (name : string) (w : World)
  (state : State) :
  load_state env w = (Ok state, w) ->
  dict_mem (normalize_name name) (get_tracked state) = false ->
  untrack env name w =
    (Ok tt,
     mkWorld (file w)
             (trace w ++ [Replied ("Not tracking **" ++ normalize_name name ++
                                   "**. Use `/list` to see tracked series.")])).
Proof.
  intros Hload Hmem. unfold untrack, bind. rewrite Hload, Hmem. reflexivity.
Qed.

Lemma untrack_unknown_is_read_only_witness :
  untrack (env_with page_1171 [state_1171] None) "Naruto" world_1171 =
    (Ok tt,
     mkWorld (Some (json_dump state_1171))
             [Replied "Not tracking **naruto**. Use `/list` to see tracked series."]).
Proof.
  apply (@untrack_unknown_is_read_only
           (env_with page_1171 [state_1171] None) "Naruto" world_1171 state_1171).
  - reflexivity.
  - reflexivity.
Defined.




Ltac run_monad :=
  unfold bind, try_except, fetch_html, bind, lift, reply, print, emit, ret; simpl.

(** C9.  With no file, [load_state] yields the empty state.  With a file
    whose text [json.load] rejects, [load_state] raises, and so do [untrack]
    and [poll_updates], leaving the world as it was; [track] never writes the
    file, and raises too once its fetch has found a chapter. *)
Theorem load_state_absent_or_corrupt (env : Env) (name url : string) (w : World)
  (doc e : string) :
  file w = Some doc ->
  json_load env doc = Raise e ->
  (forall t, load_state env (mkWorld None t) = (Ok [], mkWorld None t)) /\
  load_state env w = (Raise e, w) /\
  untrack env name w = (Raise e, w) /\
  poll_updates env w = (Raise e, w) /\
  (exists evs,
     snd (track env name url w) = mkWorld (file w) (trace w ++ evs) /\
     List.existsb is_saved evs = false) /\
  (forall html latest,
     looks_like_viz_chapters_url url = true ->
     http_get env url = Ok html ->
     parse_latest_chapter env html = Ok (Some latest) ->
     fst (track env name url w) = Raise e).
Proof.
  intros Hfile Hload.
  assert (L : forall t, load_state env (mkWorld (file w) t) = (Raise e, mkWorld (file w) t)).
  { intros t. unfold load_state. simpl. now rewrite Hfile, Hload. }
  assert (Lw : load_state env w = (Raise e, w)).
  { unfold load_state. now rewrite Hfile, Hload. }
  split; [reflexivity|]. split; [exact Lw|].
  split; [unfold untrack, bind; now rewrite Lw|].
  split; [unfold poll_updates, bind; now rewrite Lw|].
  split.
  - unfold track. destruct (looks_like_viz_chapters_url url); simpl.
    + run_monad. destruct (http_get env url) as [html|e1]; simpl.
      * destruct (parse_latest_chapter env html) as [[[d c]|]|e2]; simpl.
        -- rewrite L. simpl. eexists. rewrite <- !app_assoc. simpl.
           split; reflexivity.
        -- eexists. rewrite <- !app_assoc. simpl. split; reflexivity.
        -- eexists. rewrite <- !app_assoc. simpl. split; reflexivity.
      * eexists. rewrite <- !app_assoc. simpl. split; reflexivity.
    + eexists. run_monad. split; reflexivity.
  - intros html [d c] Hurl Hget Hparse. unfold track. rewrite Hurl. simpl.
    run_monad. rewrite Hget. simpl. rewrite Hparse. simpl. rewrite L. reflexivity.
Qed.

Lemma load_state_absent_or_corrupt_witness :
  load_state (env_with page_1171 [] None) (mkWorld (Some "not json") []) =
    (Raise "Expecting value: line 1 column 1 (char 0)",
     mkWorld (Some "not json") []).
Proof.
  apply (@load_state_absent_or_corrupt
           (env_with page_1171 [] None) "One Piece" ONE_PIECE_URL
           (mkWorld (Some "not json") []) "not json"
           "Expecting value: line 1 column 1 (char 0)"); reflexivity.
Defined.

(** *** The loop never stops early *)

Ltac run_poll :=
  unfold poll_item, poll_item_body, try_except, bind, on_world, fetch_html, bind,
    lift, get_state, state_set, channel_send, print, emit, ret; simpl.

Ltac poll_done :=
  do 3 eexists; rewrite <- ?app_assoc; simpl; split; reflexivity.

(** One turn of the loop returns normally whatever happens inside it, and
    requests its URL exactly once. *)
Lemma poll_item_runs env send name url st w :
  exists st' f' evs,
    poll_item env send name url (st, w) = (Ok tt, (st', mkWorld f' (trace w ++ evs))) /\
    fetched evs = [url].
Proof.
  run_poll.
  destruct (http_get env url) as [html|e]; simpl; [|poll_done].
  destruct (parse_latest_chapter env html) as [[[d c]|]|e]; simpl;
    [|poll_done|poll_done].
  destruct (dict_get _ st) as [prev|]; simpl.
  - destruct (get_ne prev "ch" c || get_ne prev "date" d); simpl; [|poll_done].
    destruct (send _) as [u|e]; simpl; [|poll_done].
    unfold save_state. simpl. destruct (open_w env _) as [u'|e]; simpl; poll_done.
  - unfold save_state. simpl. destruct (open_w env _) as [u'|e]; simpl; poll_done.
Qed.

Lemma poll_loop_runs env send items : forall st w,
  exists st' f' evs,
    poll_loop env send items (st, w) = (Ok tt, (st', mkWorld f' (trace w ++ evs))) /\
    fetched evs = List.map snd items.
Proof.
  induction items as [|[name url] rest IH]; intros st w.
  - exists st, (file w), []. simpl. unfold ret. rewrite app_nil_r.
    destruct w; split; reflexivity.
  - cbn [poll_loop]. unfold bind at 1.
    destruct (poll_item_runs env send name url st w) as (st1 & f1 & evs1 & -> & Hf1).
    destruct (IH st1 (mkWorld f1 (trace w ++ evs1))) as (st2 & f2 & evs2 & -> & Hf2).
    exists st2, f2, (evs1 ++ evs2)%list. simpl. rewrite <- app_assoc. split; [reflexivity|].
    rewrite fetched_app, Hf1, Hf2. reflexivity.
Qed.

Lemma poll_loop_app env send a b sw :
  poll_loop env send (a ++ b) sw =
  bind (poll_loop env send a) (fun _ => poll_loop env send b) sw.
Proof.
  revert sw. induction a as [|[name url] a IH]; intros sw; simpl.
  - reflexivity.
  - unfold bind. destruct (poll_item env send name url sw) as [[u|e] sw1].
    + rewrite IH. reflexivity.
    + reflexivity.
Qed.

Definition NARUTO_URL : string := "https://www.viz.com/shonenjump/chapters/naruto".

(** *** What [poll_updates] does with a changed chapter *)

(** With the notification channel down, a cycle that sees chapter 1172
    against the stored 1171 leaves the file and the stored record as they
    were; with the channel up, the message goes out before the file is
    written. *)
Lemma changed_value_not_kept_when_send_fails :
  poll_updates (env_with page_1172 [state_1171] (Some channel_down)) world_1171 =
    (Ok tt,
     mkWorld (Some (json_dump state_1171))
             [Fetched ONE_PIECE_URL;
              Printed "[ERROR] one_piece: 503 Service Unavailable"]) /\
  json_dump state_1171 <> json_dump state_1172 /\
  trace (snd (poll_updates (env_with page_1172 [state_1171] (Some channel_ok)) world_1171)) =
    [Fetched ONE_PIECE_URL;
     Sent (notification (env_with page_1172 [state_1171] (Some channel_ok))
             "one_piece" "1172" "January 25, 2026" ONE_PIECE_URL);
     Saved (json_dump state_1172);
     Printed "[NOTIFIED] one_piece: Ch. 1172 (January 25, 2026)"].
Proof.
  split; [vm_compute; reflexivity|]. split; [|vm_compute; reflexivity].
  vm_compute. discriminate.
Qed.

(** C1 (amended).  For a series whose fetched chapter differs from the
    stored one, [poll_updates] sends the notification first and stores the new
    record only after the send has returned: when the send succeeds the events
    are fetch, send, save, in this order; when the send raises, nothing is
    stored for the series, in memory or in the file, and the error is
    printed, so the next cycle meets the same difference again. *)
Theorem changed_notifies_then_persists (env : Env) (send : string -> result unit)
  (name url html date ch : string) (prev : entry) (st : State) (w : World) :
  http_get env url = Ok html ->
  parse_latest_chapter env html = Ok (Some (date, ch)) ->
  dict_get ("latest:" ++ name) st = Some prev ->
  get_ne prev "ch" ch || get_ne prev "date" date = true ->
  let msg := notification env name ch date url in
  let st' := dict_set ("latest:" ++ name) (chapter_record date ch url) st in
  (send msg = Ok tt ->
   open_w env (json_dump st') = Ok tt ->
   poll_item env send name url (st, w) =
     (Ok tt,
      (st', mkWorld (Some (json_dump st'))
              (trace w ++ [Fetched url; Sent msg; Saved (json_dump st');
                           Printed ("[NOTIFIED] " ++ name ++ ": Ch. " ++ ch ++
                                    " (" ++ date ++ ")")])))) /\
  (forall e, send msg = Raise e ->
   poll_item env send name url (st, w) =
     (Ok tt,
      (st, mkWorld (file w)
             (trace w ++ [Fetched url; Printed ("[ERROR] " ++ name ++ ": " ++ e)])))).
Proof.
  intros Hget Hparse Hprev Hne msg st'. split.
  - intros Hsend Hopen.
    unfold poll_item, poll_item_body, try_except, bind, on_world, fetch_html, bind,
      lift, get_state, state_set, channel_send, print, emit, ret.
    cbn [fst snd file trace]. rewrite Hget. cbn [fst snd file trace].
    rewrite Hparse. cbn [fst snd file trace]. rewrite Hprev, Hne.
    fold msg. rewrite Hsend. cbn [fst snd file trace]. fold st'.
    rewrite (save_state_ok _ _ _ Hopen). cbn [fst snd file trace].
    rewrite <- !app_assoc. reflexivity.
  - intros e Hsend.
    unfold poll_item, poll_item_body, try_except, bind, on_world, fetch_html, bind,
      lift, get_state, state_set, channel_send, print, emit, ret.
    cbn [fst snd file trace]. rewrite Hget. cbn [fst snd file trace].
    rewrite Hparse. cbn [fst snd file trace]. rewrite Hprev, Hne.
    fold msg. rewrite Hsend. cbn [fst snd file trace].
    rewrite <- !app_assoc. reflexivity.
Qed.

Lemma changed_notifies_then_persists_witness :
  poll_item (env_with page_1172 [state_1171] (Some channel_down)) channel_down
    "one_piece" ONE_PIECE_URL (state_1171, world_1171) =
    (Ok tt,
     (state_1171,
      mkWorld (file world_1171)
        (trace world_1171 ++
         [Fetched ONE_PIECE_URL;
          Printed ("[ERROR] " ++ "one_piece" ++ ": " ++ "503 Service Unavailable")]))).
Proof.
  apply (@changed_notifies_then_persists
           (env_with page_1172 [state_1171] (Some channel_down)) channel_down
           "one_piece" ONE_PIECE_URL page_1172 "January 25, 2026" "1172"
           (chapter_record "January 18, 2026" "1171" ONE_PIECE_URL)
           state_1171 world_1171).
  - reflexivity.
  - reflexivity.
  - reflexivity.
  - reflexivity.
  - reflexivity.
Defined.

(** *** The decision for one series *)

Inductive outcome : Type := Initialize | Unchanged | Changed.

(** The Reconciler as the specification words it: no stored value gives
    [Initialize] with the fresh value; a stored value whose date and chapter
    label both equal the fresh ones gives [Unchanged] and keeps the stored
    value; anything else gives [Changed] with the fresh value, url included. *)
Definition reconcile_spec (stored : option entry) (date label url : string)
  : outcome * entry :=
  match stored with
  | None => (Initialize, chapter_record date label url)
  | Some old =>
      match dict_get "date" old, dict_get "ch" old with
      | Some d, Some l =>
          if String.eqb d date && String.eqb l label
          then (Unchanged, old)
          else (Changed, chapter_record date label url)
      | _, _ => (Changed, chapter_record date label url)
      end
  end.

(** C2.  With a page fetched and a chapter extracted, and the send and the
    write of this turn going through, one turn of the poll loop does what the
    Reconciler says: [Initialize] stores the fresh record and saves, without a message;
    [Unchanged] stores and sends nothing; [Changed] sends the message, replaces
    the stored record by the fresh one and saves. *)
Theorem poll_item_refines_reconciler (env : Env) (send : string -> result unit)
  (name url html date ch : string) (st : State) (w : World) :
  http_get env url = Ok html ->
  parse_latest_chapter env html = Ok (Some (date, ch)) ->
  send (notification env name ch date url) = Ok tt ->
  open_w env (json_dump (dict_set ("latest:" ++ name)
                                  (chapter_record date ch url) st)) = Ok tt ->
  let key := "latest:" ++ name in
  poll_item env send name url (st, w) =
    match reconcile_spec (dict_get key st) date ch url with
    | (Initialize, fresh) =>
        let st' := dict_set key fresh st in
        (Ok tt,
         (st', mkWorld (Some (json_dump st'))
                 (trace w ++ [Fetched url; Saved (json_dump st');
                              Printed ("[INIT] " ++ name ++ ": Ch. " ++ ch ++
                                       " (" ++ date ++ ")")])))
    | (Unchanged, _) =>
        (Ok tt,
         (st, mkWorld (file w)
                (trace w ++ [Fetched url;
                             Printed ("[OK] " ++ name ++ ": no change (still Ch. " ++
                                      ch ++ ")")])))
    | (Changed, fresh) =>
        let st' := dict_set key fresh st in
        (Ok tt,
         (st', mkWorld (Some (json_dump st'))
                 (trace w ++ [Fetched url;
                              Sent (notification env name ch date url);
                              Saved (json_dump st');
                              Printed ("[NOTIFIED] " ++ name ++ ": Ch. " ++ ch ++
                                       " (" ++ date ++ ")")])))
    end /\
  (forall o fresh, reconcile_spec (dict_get key st) date ch url = (o, fresh) ->
     o <> Unchanged -> fresh = chapter_record date ch url).
Proof.
  intros Hget Hparse Hsend Hopen key. split.
  - unfold poll_item, poll_item_body, try_except, bind, on_world, fetch_html, bind,
      lift, get_state, state_set, channel_send, print, emit, ret.
    cbn [fst snd file trace]. rewrite Hget. cbn [fst snd file trace].
    rewrite Hparse. cbn [fst snd file trace]. fold key.
    unfold reconcile_spec. destruct (dict_get key st) as [old|].
    + unfold get_ne.
      destruct (dict_get "ch" old) as [l|], (dict_get "date" old) as [d|];
        try destruct (String.eqb l ch); try destruct (String.eqb d date);
        cbn [negb orb andb];
        rewrite ?Hsend; cbn [fst snd file trace];
        rewrite ?(save_state_ok _ _ _ Hopen); cbn [fst snd file trace];
        rewrite <- ?app_assoc; reflexivity.
    + rewrite (save_state_ok _ _ _ Hopen). cbn [fst snd file trace].
      rewrite <- ?app_assoc. reflexivity.
  - intros o fresh. unfold reconcile_spec. destruct (dict_get key st) as [old|].
    + destruct (dict_get "date" old) as [d|], (dict_get "ch" old) as [l|];
        try (intros H; injection H as <- <-; reflexivity).
      destruct (String.eqb d date && String.eqb l ch); intros H; injection H as <- <-;
        [congruence | reflexivity].
    + intros H; injection H as <- <-; reflexivity.
Qed.

Lemma poll_item_refines_reconciler_witness :
  reconcile_spec (dict_get ("latest:" ++ "one_piece") state_1171)
    "January 25, 2026" "1172" ONE_PIECE_URL =
    (Changed, chapter_record "January 25, 2026" "1172" ONE_PIECE_URL) /\
  fst (snd (poll_item (env_with page_1172 [state_1171] (Some channel_ok)) channel_ok
              "one_piece" ONE_PIECE_URL (state_1171, world_1171))) = state_1172.
Proof.
  split; [reflexivity|].
  rewrite (proj1 (@poll_item_refines_reconciler
                    (env_with page_1172 [state_1171] (Some channel_ok)) channel_ok
                    "one_piece" ONE_PIECE_URL page_1172 "January 25, 2026" "1172"
                    state_1171 world_1171 eq_refl eq_refl eq_refl eq_refl)).
  reflexivity.
Defined.

(** *** A failing series does not stop the sweep *)

Definition logged (line : string) (w : World) : World :=
  mkWorld (file w) (trace w ++ [Printed line]).

(** What the sweep does with one item, as the specification lists the
    steps: fetch, extract, reconcile, then (on [Changed]) notify, persist and
    log; the error of a step that raises is logged under the name of the
    item, and the item is done for this cycle. *)
Definition process_item (env : Env) (send : string -> result unit)
  (name url : string) (sw : Poll) : Poll :=
  let st := fst sw in
  let w := mkWorld (file (snd sw)) (trace (snd sw) ++ [Fetched url]) in
  let failed (e : string) (st' : State) (w' : World) : Poll :=
    (st', logged ("[ERROR] " ++ name ++ ": " ++ e) w') in
  match http_get env url with
  | Raise e => failed e st w
  | Ok html =>
      match parse_latest_chapter env html with
      | Raise e => failed e st w
      | Ok None =>
          (st, logged ("[WARN] Could not parse latest chapter for " ++ name) w)
      | Ok (Some (date, ch)) =>
          let key := "latest:" ++ name in
          match reconcile_spec (dict_get key st) date ch url with
          | (Unchanged, _) =>
              (st, logged ("[OK] " ++ name ++ ": no change (still Ch. " ++ ch ++ ")") w)
          | (Initialize, fresh) =>
              let st' := dict_set key fresh st in
              let doc := json_dump st' in
              match open_w env doc with
              | Raise e => failed e st' w
              | Ok _ =>
                  (st', logged ("[INIT] " ++ name ++ ": Ch. " ++ ch ++ " (" ++ date ++ ")")
                          (mkWorld (Some doc) (trace w ++ [Saved doc])))
              end
          | (Changed, fresh) =>
              let msg := notification env name ch date url in
              match send msg with
              | Raise e => failed e st w
              | Ok _ =>
                  let w1 := mkWorld (file w) (trace w ++ [Sent msg]) in
                  let st' := dict_set key fresh st in
                  let doc := json_dump st' in
                  match open_w env doc with
                  | Raise e => failed e st' w1
                  | Ok _ =>
                      (st', logged ("[NOTIFIED] " ++ name ++ ": Ch. " ++ ch ++
                                    " (" ++ date ++ ")")
                              (mkWorld (Some doc) (trace w1 ++ [Saved doc])))
                  end
              end
          end
      end
  end.

(** The items of a table processed one after the other, in the order of the
    table. *)
Definition sweep (env : Env) (send : string -> result unit)
  (items : list (string * string)) (sw : Poll) : Poll :=
  List.fold_left (fun sw item => process_item env send (fst item) (snd item) sw) items sw.

(** One turn of the loop of [poll_updates] processes its item. *)
Lemma poll_item_processes env send name url sw :
  poll_item env send name url sw = (Ok tt, process_item env send name url sw).
Proof.
  destruct sw as [st w].
  unfold poll_item, poll_item_body, process_item, logged, try_except, bind, on_world,
    fetch_html, bind, lift, get_state, state_set, channel_send, print, emit, ret.
  cbn [fst snd file trace].
  destruct (http_get env url) as [html|e]; cbn [fst snd file trace]; [|reflexivity].
  destruct (parse_latest_chapter env html) as [[[d c]|]|e]; cbn [fst snd file trace];
    [|reflexivity|reflexivity].
  unfold reconcile_spec, save_state.
  destruct (dict_get _ st) as [old|]; cbn [fst snd file trace].
  - unfold get_ne.
    destruct (dict_get "ch" old) as [l|], (dict_get "date" old) as [d0|];
      try destruct (String.eqb l c); try destruct (String.eqb d0 d);
      cbn [negb orb andb fst snd file trace]; try reflexivity;
      (destruct (send _) as [u|e]; cbn [fst snd file trace]; [|reflexivity];
       destruct (open_w env _) as [u'|e]; cbn [fst snd file trace]; [|reflexivity];
       rewrite save_state_ops_complete; reflexivity).
  - destruct (open_w env _) as [u'|e]; cbn [fst snd file trace]; [|reflexivity].
    rewrite save_state_ops_complete. reflexivity.
Qed.

Lemma poll_loop_sweeps env send items : forall sw,
  poll_loop env send items sw = (Ok tt, sweep env send items sw).
Proof.
  induction items as [|[name url] rest IH]; intros sw; [reflexivity|].
  cbn [poll_loop]. unfold bind. rewrite poll_item_processes. apply IH.
Qed.

(** C7.  When the body of the loop raises for one series (the fetch, the
    extraction, the send or the save), [poll_updates] prints the error with
    the name of the series and goes on: the loop ends normally, every later
    series is requested, in the order of the tracked table, and what the loop
    leaves (the dict [state], the file and the trace) is what processing the
    later series one by one leaves, starting from where the failed one
    stopped. *)
Theorem poll_item_failure_is_isolated (env : Env) (send : string -> result unit)
  (before after : list (string * string)) (name url e : string)
  (st st1 st2 : State) (w w1 w2 : World) :
  poll_loop env send before (st, w) = (Ok tt, (st1, w1)) ->
  poll_item_body env send name url (st1, w1) = (Raise e, (st2, w2)) ->
  exists st' f' evs,
    poll_loop env send (before ++ (name, url) :: after) (st, w) =
      (Ok tt,
       (st', mkWorld f' (trace w2 ++ Printed ("[ERROR] " ++ name ++ ": " ++ e) :: evs))) /\
    fetched evs = List.map snd after /\
    sweep env send after (st2, logged ("[ERROR] " ++ name ++ ": " ++ e) w2) =
      (st', mkWorld f' (trace w2 ++ Printed ("[ERROR] " ++ name ++ ": " ++ e) :: evs)).
Proof.
  intros Hbefore Hbody. rewrite poll_loop_app. unfold bind at 1. rewrite Hbefore.
  cbn [poll_loop]. unfold bind at 1. unfold poll_item, try_except. rewrite Hbody.
  unfold on_world, print, emit. cbn [fst snd]. fold (logged ("[ERROR] " ++ name ++ ": " ++ e) w2).
  destruct (poll_loop_runs env send after st2 (logged ("[ERROR] " ++ name ++ ": " ++ e) w2))
    as (st' & f' & evs & Hrun & Hf).
  exists st', f', evs. rewrite Hrun. rewrite poll_loop_sweeps in Hrun.
  unfold logged in *. cbn [trace] in *. rewrite <- app_assoc in *. cbn [app] in *.
  split; [reflexivity|]. split; [exact Hf|]. congruence.
Qed.

Lemma poll_item_failure_is_isolated_witness :
  poll_loop (env_with page_1172 [] (Some channel_ok)) channel_ok
    ([] ++ ("naruto", NARUTO_URL) :: [("one_piece", ONE_PIECE_URL)])
    (state_1171, world_1171) =
    (Ok tt,
     (state_1172,
      mkWorld (Some (json_dump state_1172))
        [Fetched NARUTO_URL;
         Printed "[ERROR] naruto: 404, message='Not Found'";
         Fetched ONE_PIECE_URL;
         Sent (notification (env_with page_1172 [] (Some channel_ok)) "one_piece"
                 "1172" "January 25, 2026" ONE_PIECE_URL);
         Saved (json_dump state_1172);
         Printed "[NOTIFIED] one_piece: Ch. 1172 (January 25, 2026)"])).
Proof.
  destruct (@poll_item_failure_is_isolated
              (env_with page_1172 [] (Some channel_ok)) channel_ok
              [] [("one_piece", ONE_PIECE_URL)] "naruto" NARUTO_URL
              "404, message='Not Found'"
              state_1171 state_1171 state_1171
              world_1171 world_1171 (mkWorld (file world_1171) [Fetched NARUTO_URL])
              eq_refl eq_refl) as (st' & f' & evs & Hloop & _ & Hsweep).
  rewrite Hloop, <- Hsweep. reflexivity.
Defined.

(** *** Dictionaries: keys after an assignment or a pop *)

Section PyDictFacts.
Variable V : Type.
Implicit Types (d : pydict V) (k : string) (v : V).

Lemma dict_get_set_same k v d : dict_get k (dict_set k v d) = Some v.
Proof.
  induction d as [|[k' v'] d IH]; simpl.
  - now rewrite String.eqb_refl.
  - destruct (String.eqb k k') eqn:E; simpl; rewrite E; [reflexivity | exact IH].
Qed.

Lemma dict_get_set_other k k' v d :
  k' <> k -> dict_get k' (dict_set k v d) = dict_get k' d.
Proof.
  intros Hne. induction d as [|[k0 v0] d IH]; simpl.
  - apply String.eqb_neq in Hne. now rewrite Hne.
  - destruct (String.eqb k k0) eqn:E; simpl.
    + apply String.eqb_eq in E. subst k0. apply String.eqb_neq in Hne. now rewrite Hne.
    + now rewrite IH.
Qed.

Lemma dict_keys_set k v d k' :
  In k' (dict_keys (dict_set k v d)) <-> k' = k \/ In k' (dict_keys d).
Proof.
  unfold dict_keys. induction d as [|[k0 v0] d IH]; simpl.
  - intuition.
  - destruct (String.eqb k k0) eqn:E; simpl.
    + apply String.eqb_eq in E. subst k0. intuition.
    + rewrite IH. intuition.
Qed.


Lemma dict_set_NoDup k v d :
  NoDup (dict_keys d) -> NoDup (dict_keys (dict_set k v d)).
Proof.
  unfold dict_keys. induction d as [|[k0 v0] d IH]; simpl; intros H.
  - constructor; [intros [] | constructor].
  - inversion H as [|? ? Hnin Hnd]; subst. destruct (String.eqb k k0) eqn:E; simpl.
    + constructor; assumption.
    + constructor; [|auto]. intros Hin.
      apply (dict_keys_set k v d k0) in Hin as [Heq | Hin]; [|contradiction].
      subst k0. rewrite String.eqb_refl in E. discriminate.
Qed.

Lemma dict_mem_In k d : dict_mem k d = true <-> In k (dict_keys d).
Proof.
  unfold dict_mem, dict_keys. induction d as [|[k0 v0] d IH]; simpl.
  - split; [discriminate | intros []].
  - destruct (String.eqb k k0) eqn:E.
    + apply String.eqb_eq in E. subst. intuition.
    + rewrite IH. apply String.eqb_neq in E. intuition congruence.
Qed.

Lemma dict_keys_pop k d k' :
  NoDup (dict_keys d) ->
  (In k' (dict_keys (dict_pop k d)) <-> k' <> k /\ In k' (dict_keys d)).
Proof.
  unfold dict_keys. induction d as [|[k0 v0] d IH]; simpl; intros H.
  - intuition.
  - inversion H as [|? ? Hnin Hnd]; subst. destruct (String.eqb k k0) eqn:E; simpl.
    + apply String.eqb_eq in E. subst k0. split.
      * intros Hin. split; [intros ->; contradiction | auto].
      * intros [Hne [Heq | Hin]]; [congruence | assumption].
    + apply String.eqb_neq in E. rewrite (IH Hnd). intuition congruence.
Qed.

Lemma dict_pop_NoDup k d :
  NoDup (dict_keys d) -> NoDup (dict_keys (dict_pop k d)).
Proof.
  unfold dict_keys. induction d as [|[k0 v0] d IH]; simpl; intros H; [constructor|].
  inversion H as [|? ? Hnin Hnd]; subst. destruct (String.eqb k k0); simpl; [assumption|].
  constructor; [|auto]. intros Hin.
  apply dict_keys_pop in Hin as [_ Hin]; [contradiction | assumption].
Qed.

Lemma dict_get_pop_other k k' d :
  k' <> k -> dict_get k' (dict_pop k d) = dict_get k' d.
Proof.
  intros Hne. induction d as [|[k0 v0] d IH]; simpl; [reflexivity|].
  destruct (String.eqb k k0) eqn:E; simpl.
  - apply String.eqb_eq in E. subst k0. apply String.eqb_neq in Hne. now rewrite Hne.
  - now rewrite IH.
Qed.

Lemma dict_mem_pop_same k d :
  NoDup (dict_keys d) -> dict_mem k (dict_pop k d) = false.
Proof.
  intros H. destruct (dict_mem k (dict_pop k d)) eqn:E; [|reflexivity].
  apply dict_mem_In in E. apply dict_keys_pop in E as [Hne _]; [congruence | assumption].
Qed.

End PyDictFacts.

(** *** The keys of the state document *)

(** Every key other than ["tracked"] is ["latest:<name>"] for a name that is
    a key of the tracked table. *)
Definition observed_keys_tracked (s : State) : Prop :=
  forall k, In k (dict_keys s) ->
    k = "tracked" \/
    exists name, k = "latest:" ++ name /\ dict_mem name (get_tracked s) = true.

(** A dict has each key once. *)
Definition well_formed (s : State) : Prop :=
  NoDup (dict_keys s) /\ NoDup (dict_keys (get_tracked s)).

(** The states the three operations lead to, starting from the empty one:
    what [track] and [untrack] hand to [save_state], and the dict [state]
    after a turn of the poll loop for a tracked series. *)
Inductive reachable : State -> Prop :=
| reach_empty : reachable []
| reach_track name url date ch s :
    reachable s ->
    reachable (track_update (normalize_name name) url date ch s)
| reach_untrack name s :
    reachable s ->
    dict_mem (normalize_name name) (get_tracked s) = true ->
    reachable (untrack_update (normalize_name name) s)
| reach_poll env send name url s w :
    reachable s ->
    In (name, url) (get_tracked s) ->
    reachable (fst (snd (poll_item env send name url (s, w)))).

Lemma get_tracked_set_tracked s t : get_tracked (set_tracked s t) = t.
Proof. unfold get_tracked, set_tracked. now rewrite dict_get_set_same. Qed.

Lemma latest_not_tracked name : "tracked" <> "latest:" ++ name.
Proof. simpl. discriminate. Qed.

Lemma get_tracked_set_latest name v s :
  get_tracked (dict_set ("latest:" ++ name) v s) = get_tracked s.
Proof.
  unfold get_tracked. rewrite dict_get_set_other; [reflexivity | apply latest_not_tracked].
Qed.

Lemma get_tracked_pop_latest name s :
  get_tracked (dict_pop ("latest:" ++ name) s) = get_tracked s.
Proof.
  unfold get_tracked. rewrite dict_get_pop_other; [reflexivity | apply latest_not_tracked].
Qed.

Lemma In_dict_mem (V : Type) k (v : V) d : In (k, v) d -> dict_mem k d = true.
Proof. intros H. apply dict_mem_In. unfold dict_keys. now apply (in_map fst) in H. Qed.

(** The dict [state] after one turn of the loop: untouched, or with the
    record of this series replaced. *)
Lemma poll_item_state env send name url st w :
  fst (snd (poll_item env send name url (st, w))) = st \/
  exists date ch,
    fst (snd (poll_item env send name url (st, w))) =
    dict_set ("latest:" ++ name) (chapter_record date ch url) st.
Proof.
  run_poll.
  destruct (http_get env url) as [html|e]; simpl; [|now left].
  destruct (parse_latest_chapter env html) as [[[d c]|]|e]; simpl;
    [|now left|now left].
  destruct (dict_get _ st) as [prev|]; simpl.
  - destruct (get_ne prev "ch" c || get_ne prev "date" d); simpl; [|now left].
    destruct (send _) as [u|e]; simpl; [|now left].
    unfold save_state. simpl. destruct (open_w env _) as [u'|e]; simpl;
      right; exists d, c; reflexivity.
  - unfold save_state. simpl. destruct (open_w env _) as [u'|e]; simpl;
      right; exists d, c; reflexivity.
Qed.

Lemma set_latest_invariant name v s :
  dict_mem name (get_tracked s) = true ->
  well_formed s /\ observed_keys_tracked s ->
  well_formed (dict_set ("latest:" ++ name) v s) /\
  observed_keys_tracked (dict_set ("latest:" ++ name) v s).
Proof.
  intros Hmem [[Hk Ht] Hobs]. split.
  - split; [now apply dict_set_NoDup | now rewrite get_tracked_set_latest].
  - intros k Hin. rewrite get_tracked_set_latest.
    apply dict_keys_set in Hin as [-> | Hin]; [right; eauto | auto].
Qed.

Lemma track_update_invariant n url date ch s :
  well_formed s /\ observed_keys_tracked s ->
  well_formed (track_update n url date ch s) /\
  observed_keys_tracked (track_update n url date ch s).
Proof.
  intros [[Hk Ht] Hobs]. unfold track_update. apply set_latest_invariant.
  - rewrite get_tracked_set_tracked. unfold dict_mem. now rewrite dict_get_set_same.
  - split.
    + split; [now apply dict_set_NoDup|].
      rewrite get_tracked_set_tracked. now apply dict_set_NoDup.
    + intros k Hin. rewrite get_tracked_set_tracked.
      apply dict_keys_set in Hin as [-> | Hin]; [now left|].
      destruct (Hobs k Hin) as [-> | (m & -> & Hm)]; [now left|].
      right. exists m. split; [reflexivity|].
      apply dict_mem_In, dict_keys_set. right. now apply dict_mem_In.
Qed.

Lemma untrack_update_invariant n s :
  well_formed s /\ observed_keys_tracked s ->
  well_formed (untrack_update n s) /\ observed_keys_tracked (untrack_update n s).
Proof.
  intros [[Hk Ht] Hobs]. unfold untrack_update.
  assert (Hk1 : NoDup (dict_keys (set_tracked s (dict_pop n (get_tracked s)))))
    by now apply dict_set_NoDup.
  split.
  - split; [now apply dict_pop_NoDup|].
    rewrite get_tracked_pop_latest, get_tracked_set_tracked. now apply dict_pop_NoDup.
  - intros k Hin. rewrite get_tracked_pop_latest, get_tracked_set_tracked.
    apply dict_keys_pop in Hin as [Hne Hin]; [|assumption].
    apply dict_keys_set in Hin as [-> | Hin]; [now left|].
    destruct (Hobs k Hin) as [-> | (m & -> & Hm)]; [now left|].
    right. exists m. split; [reflexivity|].
    apply dict_mem_In, dict_keys_pop; [assumption|]. split.
    + intros ->. now apply Hne.
    + now apply dict_mem_In.
Qed.

Lemma reachable_invariant s :
  reachable s -> well_formed s /\ observed_keys_tracked s.
Proof.
  induction 1 as [| name url date ch s _ IH | name s _ IH _
                  | env send name url s w _ IH Hin].
  - split; [split; constructor | intros k []].
  - now apply track_update_invariant.
  - now apply untrack_update_invariant.
  - destruct (poll_item_state env send name url s w) as [-> | (d & c & ->)];
      [assumption|].
    apply set_latest_invariant; [|assumption]. eapply In_dict_mem; eauto.
Qed.

(** *** The operations write reachable states only

    Whatever document an operation finds in the file, if it decodes to a
    reachable state then the file afterwards is untouched or holds the
    document of a reachable state. *)

Definition file_kept_or_reachable (before after : option string) : Prop :=
  after = before \/ exists s', reachable s' /\ after = Some (json_dump s').

Lemma load_state_any_trace env w s t :
  load_state env w = (Ok s, w) ->
  load_state env (mkWorld (file w) t) = (Ok s, mkWorld (file w) t).
Proof.
  unfold load_state. cbn [file]. destruct (file w) as [doc|]; intros H.
  - injection H as H. now rewrite H.
  - injection H as <-. reflexivity.
Qed.

Lemma save_state_file env s w :
  file (snd (save_state env s w)) = file w \/
  file (snd (save_state env s w)) = Some (json_dump s).
Proof.
  unfold save_state. destruct (open_w env (json_dump s)); [right | now left].
  cbn [snd file]. apply save_state_ops_complete.
Qed.

Lemma track_keeps_reachable env name url w s :
  load_state env w = (Ok s, w) -> reachable s ->
  file_kept_or_reachable (file w) (file (snd (track env name url w))).
Proof.
  intros Hload Hr. unfold track.
  destruct (looks_like_viz_chapters_url url); simpl; [|now left].
  run_monad. destruct (http_get env url) as [html|e]; simpl; [|now left].
  destruct (parse_latest_chapter env html) as [[[d c]|]|e]; simpl;
    [|now left|now left].
  rewrite (load_state_any_trace _ _ Hload). cbn [fst snd].
  match goal with
  | |- context [save_state env ?st ?w0] =>
      destruct (save_state_file env st w0) as [H | H];
      destruct (save_state env st w0) as [[u|e] w1]; cbn [snd file] in *
  end; rewrite H; try (now left);
    right; eexists; (split; [eapply reach_track; exact Hr | reflexivity]).
Qed.

Lemma untrack_keeps_reachable env name w s :
  load_state env w = (Ok s, w) -> reachable s ->
  file_kept_or_reachable (file w) (file (snd (untrack env name w))).
Proof.
  intros Hload Hr. unfold untrack, bind. rewrite Hload.
  destruct (dict_mem (normalize_name name) (get_tracked s)) eqn:Hmem; simpl; [|now left].
  match goal with
  | |- context [save_state env ?st ?w0] =>
      destruct (save_state_file env st w0) as [H | H];
      destruct (save_state env st w0) as [[u|e] w1]; cbn [snd file] in *
  end; unfold reply, emit; cbn [snd file]; rewrite H; try (now left);
    right; eexists; (split; [eapply reach_untrack; [exact Hr | exact Hmem] | reflexivity]).
Qed.

Lemma poll_item_file env send name url st w :
  file (snd (snd (poll_item env send name url (st, w)))) = file w \/
  file (snd (snd (poll_item env send name url (st, w)))) =
    Some (json_dump (fst (snd (poll_item env send name url (st, w))))).
Proof.
  run_poll.
  destruct (http_get env url) as [html|e]; simpl; [|now left].
  destruct (parse_latest_chapter env html) as [[[d c]|]|e]; simpl;
    [|now left|now left].
  destruct (dict_get _ st) as [prev|]; simpl.
  - destruct (get_ne prev "ch" c || get_ne prev "date" d); simpl; [|now left].
    destruct (send _) as [u|e]; simpl; [|now left].
    match goal with
    | |- context [save_state env ?s0 ?w0] =>
        pose proof (save_state_file env s0 w0) as Hs;
        destruct (save_state env s0 w0) as [[u'|e] w1]
    end; simpl in *; destruct Hs as [-> | ->]; auto.
  - match goal with
    | |- context [save_state env ?s0 ?w0] =>
        pose proof (save_state_file env s0 w0) as Hs;
        destruct (save_state env s0 w0) as [[u'|e] w1]
    end; simpl in *; destruct Hs as [-> | ->]; auto.
Qed.

Lemma poll_item_keeps_tracked env send name url st w :
  get_tracked (fst (snd (poll_item env send name url (st, w)))) = get_tracked st.
Proof.
  destruct (poll_item_state env send name url st w) as [-> | (d & c & ->)];
    [reflexivity | apply get_tracked_set_latest].
Qed.

Lemma poll_loop_keeps_reachable env send f0 items : forall st w,
  reachable st ->
  (forall n u, In (n, u) items -> In (n, u) (get_tracked st)) ->
  file_kept_or_reachable f0 (file w) ->
  file_kept_or_reachable f0 (file (snd (snd (poll_loop env send items (st, w))))).
Proof.
  induction items as [|[name url] rest IH]; intros st w Hr Hitems Hfile.
  - exact Hfile.
  - cbn [poll_loop]. unfold bind.
    pose proof (poll_item_file env send name url st w) as Hf.
    pose proof (poll_item_keeps_tracked env send name url st w) as Ht.
    assert (Hr1 : reachable (fst (snd (poll_item env send name url (st, w)))))
      by (apply reach_poll; [exact Hr | apply Hitems; now left]).
    destruct (poll_item env send name url (st, w)) as [[u|e] [st1 w1]];
      cbn [fst snd] in *.
    + apply IH; [exact Hr1 | | ].
      * intros n u' Hin. rewrite Ht. apply Hitems. now right.
      * destruct Hf as [-> | ->]; [exact Hfile | right; eauto].
    + destruct Hf as [-> | ->]; [exact Hfile | right; eauto].
Qed.

Lemma poll_updates_keeps_reachable env w s :
  load_state env w = (Ok s, w) -> reachable s ->
  file_kept_or_reachable (file w) (file (snd (poll_updates env w))).
Proof.
  intros Hload Hr. unfold poll_updates, bind. rewrite Hload.
  destruct (get_tracked s) as [|item items] eqn:Ht; [now left|].
  destruct (get_channel env) as [send|]; [|now left].
  pose proof (@poll_loop_keeps_reachable env send (file w) (item :: items) s w Hr) as H.
  destruct (poll_loop env send (item :: items) (s, w)) as [r [st' w']].
  cbn [fst snd] in *. apply H; [|now left].
  intros n u Hin. rewrite Ht. exact Hin.
Qed.

(** C6.  In every reachable state each key ["latest:<name>"] belongs to a
    name that is in the tracked table, and [untrack] removes both the entry of
    the tracked table and the ["latest:"] record of the normalised name. *)
Theorem observed_entries_follow_tracked (s : State) (name : string) :
  reachable s ->
  observed_keys_tracked s /\
  dict_mem (normalize_name name)
           (get_tracked (untrack_update (normalize_name name) s)) = false /\
  dict_mem ("latest:" ++ normalize_name name)
           (untrack_update (normalize_name name) s) = false.
Proof.
  intros Hr. destruct (reachable_invariant Hr) as [[Hk Ht] Hobs].
  split; [exact Hobs|]. unfold untrack_update. split.
  - rewrite get_tracked_pop_latest, get_tracked_set_tracked.
    now apply dict_mem_pop_same.
  - apply dict_mem_pop_same. now apply dict_set_NoDup.
Qed.

Lemma observed_entries_follow_tracked_witness :
  observed_keys_tracked state_1171 /\
  dict_mem (normalize_name "One Piece")
           (get_tracked (untrack_update (normalize_name "One Piece") state_1171)) = false /\
  dict_mem ("latest:" ++ normalize_name "One Piece")
           (untrack_update (normalize_name "One Piece") state_1171) = false.
Proof.
  apply (@observed_entries_follow_tracked state_1171 "One Piece").
  exact (reach_track " One Piece" ONE_PIECE_URL "January 18, 2026" "1171" reach_empty).
Defined.

(** *** Normalised names *)

Lemma isspace_lower_char c : isspace (lower_char c) = isspace c.
Proof. destruct c as [[] [] [] [] [] [] [] []]; reflexivity. Qed.




Lemma drop_while_append p a b :
  Str.drop_while p (a ++ b) =
  if Str.all p a then Str.drop_while p b else Str.drop_while p a ++ b.
Proof.
  induction a as [|c a IH]; simpl; [reflexivity|].
  destruct (p c); simpl; [exact IH | reflexivity].
Qed.















(** *** Extraction *)

(** A date glued to the marker is not found, and a capitalised word that is
    no month is accepted. *)
Lemma glued_marker_missed_and_any_word_accepted :
  entry_at "January 18, 2026 Ch. 1171 FREE" "" "January 18, 2026" " " " " "1171" " FREE" /\
  parse_latest_chapter (env_with "" [] None) "January 18, 2026 Ch. 1171 FREE" =
    Ok (Some ("January 18, 2026", "1171")) /\
  parse_latest_chapter (env_with "" [] None) "January 18, 2026Ch. 1171 FREE" = Ok None /\
  parse_latest_chapter (env_with "" [] None) "Chapter 7, 2026 Ch. 85.5 FREE" =
    Ok (Some ("Chapter 7, 2026", "85.5")).
Proof.
  split; [|repeat split; vm_compute; reflexivity].
  unfold entry_at. repeat split; try (vm_compute; reflexivity); try (simpl; lia).
  - exists "J"%char, "anuary", "18", "2026".
    repeat split; try (vm_compute; reflexivity); simpl; lia.
  - exists "1171". repeat split; try (vm_compute; reflexivity); try (simpl; lia).
    now left.
Qed.

(** C3 (amended).  On the text of the page, [parse_latest_chapter] returns
    the date and the number of the leftmost entry, an entry being a
    capitalised word (whether a month name or not), a blank, one or two
    digits, a comma and a blank, four digits, then at least one whitespace
    character, [Ch.], optional whitespace and an integer or decimal number,
    taken whole.  It returns [None], and does not raise, exactly when the
    text has no entry. *)
Theorem parse_latest_chapter_finds_first_entry (env : Env) (html text : string) :
  soup_get_text env html = Ok text ->
  (forall d l,
     parse_latest_chapter env html = Ok (Some (d, l)) ->
     exists pre ws1 ws2 rest,
       entry_at text pre d ws1 ws2 l rest /\
       number_ends l rest /\
       forall pre' d' ws1' ws2' l' rest',
         entry_at text pre' d' ws1' ws2' l' rest' -> length pre <= length pre') /\
  (parse_latest_chapter env html = Ok None <->
   ~ exists pre d ws1 ws2 l rest, entry_at text pre d ws1 ws2 l rest) /\
  (forall e, parse_latest_chapter env html <> Raise e).
Proof.
  intros Htext. unfold parse_latest_chapter. rewrite Htext. split; [|split].
  - intros d l H. injection H as H. now apply search_top_chapter_some.
  - rewrite <- search_top_chapter_none. split; [intros H; now injection H | now intros ->].
  - discriminate.
Qed.

Lemma parse_latest_chapter_finds_first_entry_witness :
  parse_latest_chapter (env_with "" [] None) "Page not found" = Ok None <->
  ~ exists pre d ws1 ws2 l rest, entry_at "Page not found" pre d ws1 ws2 l rest.
Proof.
  apply (@parse_latest_chapter_finds_first_entry
           (env_with "" [] None) "Page not found" "Page not found").
  reflexivity.
Defined.

(** *** Saving is not atomic *)

(** A save interrupted right after the file was opened leaves an empty
    file: neither the previous document nor the new one. *)
Lemma interrupted_save_leaves_empty_file :
  save_state_interrupted 1 state_1172 (Some (json_dump state_1171)) = Some "" /\
  Some "" <> Some (json_dump state_1171) /\
  Some "" <> Some (json_dump state_1172) /\
  save_state_interrupted 3 state_1172 (Some (json_dump state_1171)) =
    Some ("{" ++ LF).
Proof. repeat split; vm_compute; try reflexivity; discriminate. Qed.

Lemma run_fs_ops_firstn_appends cs : forall k s,
  exists p q,
    run_fs_ops (List.firstn k (List.map Append cs)) (Some s) = Some (s ++ p) /\
    string_of_list_ascii cs = p ++ q.
Proof.
  induction cs as [|c cs IH]; intros k s.
  - exists "", "". rewrite firstn_nil. simpl. now rewrite Str.append_nil_r.
  - destruct k as [|k]; simpl.
    + exists "", (String c (string_of_list_ascii cs)). now rewrite Str.append_nil_r.
    + destruct (IH k (s ++ String c "")) as (p & q & Hrun & Hsplit).
      exists (String c p), q. unfold run_fs_ops in *. rewrite Hrun, Hsplit.
      rewrite Str.append_assoc. split; reflexivity.
Qed.

(** C4 (amended).  A save that runs to its end leaves exactly the new
    document in the file.  A save that is cut short leaves the file as it was
    if it had not started, and otherwise holding some leading part of the new
    document, possibly none of it; nothing of the previous document is left. *)
Theorem save_state_leaves_prefix (state : State) (old : option string) (k : nat) :
  run_fs_ops (save_state_ops state) old = Some (json_dump state) /\
  (k = 0 -> save_state_interrupted k state old = old) /\
  (0 < k ->
   exists p q, save_state_interrupted k state old = Some p /\ json_dump state = p ++ q) /\
  (List.length (save_state_ops state) <= k ->
   save_state_interrupted k state old = Some (json_dump state)).
Proof.
  split; [apply save_state_ops_complete|]. split; [intros ->; reflexivity|]. split.
  - intros Hk. destruct k as [|k]; [lia|]. unfold save_state_interrupted, save_state_ops.
    cbn [List.firstn]. change (run_fs_ops (Truncate :: ?l) old) with (run_fs_ops l (Some "")).
    destruct (run_fs_ops_firstn_appends (list_ascii_of_string (json_dump state)) k "")
      as (p & q & Hrun & Hsplit).
    exists p, q. rewrite Hrun. rewrite string_of_list_ascii_of_string in Hsplit. auto.
  - intros Hk. unfold save_state_interrupted. rewrite firstn_all2 by exact Hk.
    apply save_state_ops_complete.
Qed.

Lemma save_state_leaves_prefix_witness :
  exists p q,
    save_state_interrupted 2 state_1172 (Some (json_dump state_1171)) = Some p /\
    json_dump state_1172 = p ++ q.
Proof.
  apply (@save_state_leaves_prefix state_1172 (Some (json_dump state_1171)) 2).
  lia.
Defined.

(** ** More on the commands *)

(** *** [track] when everything works *)

(** A [track] with a URL of the VIZ shape, a page with an entry, a readable
    state and a writable file: the events are the deferral, the request, the
    save and the reply, with no message to the channel; the file holds the
    new state, in which the normalised name maps to the URL and the record of
    the series is the chapter just read. *)
Theorem track_sets_baseline (env : Env) (name url html date ch : string)
  (s : State) (w : World) :
  looks_like_viz_chapters_url url = true ->
  http_get env url = Ok html ->
  parse_latest_chapter env html = Ok (Some (date, ch)) ->
  load_state env w = (Ok s, w) ->
  let key := normalize_name name in
  let s' := track_update key url date ch s in
  open_w env (json_dump s') = Ok tt ->
  track env name url w =
    (Ok tt,
     mkWorld (Some (json_dump s'))
       (trace w ++
        [Deferred; Fetched url; Saved (json_dump s');
         Replied ("Tracking **" ++ key ++ "**" ++ LF ++
                  "Baseline set to **Ch. " ++ ch ++ "** (" ++ date ++ ")." ++ LF ++
                  "I'll post updates in <#" ++ CHANNEL_ID env ++ ">.")])) /\
  dict_get key (get_tracked s') = Some url /\
  dict_get ("latest:" ++ key) s' = Some (chapter_record date ch url).
Proof.
  intros Hurl Hget Hparse Hload key s' Hopen. split; [|split].
  - unfold track. rewrite Hurl. cbn [negb]. fold key.
    unfold bind, try_except, fetch_html, bind, lift, reply, emit, ret.
    cbn [fst snd file trace]. rewrite Hget. cbn [fst snd file trace].
    rewrite Hparse. cbn [fst snd file trace].
    rewrite (load_state_any_trace _ _ Hload). fold s'.
    rewrite (save_state_ok _ _ _ Hopen). cbn [fst snd file trace].
    rewrite <- !app_assoc. reflexivity.
  - unfold s', track_update.
    rewrite get_tracked_set_latest, get_tracked_set_tracked. apply dict_get_set_same.
  - unfold s', track_update. apply dict_get_set_same.
Qed.

Lemma track_sets_baseline_witness :
  track (env_with page_1171 [] None) " One Piece" ONE_PIECE_URL world_empty =
    (Ok tt,
     mkWorld (Some (json_dump state_1171))
       [Deferred; Fetched ONE_PIECE_URL; Saved (json_dump state_1171);
        Replied ("Tracking **one_piece**" ++ LF ++
                 "Baseline set to **Ch. 1171** (January 18, 2026)." ++ LF ++
                 "I'll post updates in <#1234>.")]).
Proof.
  apply (@track_sets_baseline (env_with page_1171 [] None) " One Piece" ONE_PIECE_URL
           page_1171 "January 18, 2026" "1171" [] world_empty);
    reflexivity.
Defined.

(** [track] touches the entry of its own series only: every other name of
    the tracked table keeps its URL, and every key of the state other than
    ["tracked"] and the record of the series keeps its value. *)
Theorem track_update_leaves_the_rest (key url date ch : string) (s : State) :
  (forall name, name <> key ->
     dict_get name (get_tracked (track_update key url date ch s)) =
     dict_get name (get_tracked s)) /\
  (forall k, k <> "tracked" -> k <> "latest:" ++ key ->
     dict_get k (track_update key url date ch s) = dict_get k s).
Proof.
  split.
  - intros name Hne. unfold track_update.
    rewrite get_tracked_set_latest, get_tracked_set_tracked.
    now apply dict_get_set_other.
  - intros k Ht Hl. unfold track_update, set_tracked.
    rewrite dict_get_set_other by exact Hl. now apply dict_get_set_other.
Qed.

(** *** [untrack] when the series is tracked *)

(** An [untrack] of a tracked series, with a writable file, saves the state
    without the series and says so; every other name of the tracked table
    keeps its URL and every other record stays. *)
Theorem untrack_removes_one_series (env : Env) (name : string) (s : State) (w : World) :
  load_state env w = (Ok s, w) ->
  let key := normalize_name name in
  let s' := untrack_update key s in
  dict_mem key (get_tracked s) = true ->
  open_w env (json_dump s') = Ok tt ->
  untrack env name w =
    (Ok tt,
     mkWorld (Some (json_dump s'))
       (trace w ++ [Saved (json_dump s'); Replied ("Untracked **" ++ key ++ "**.")])) /\
  (forall other, other <> key ->
     dict_get other (get_tracked s') = dict_get other (get_tracked s)) /\
  (forall k, k <> "tracked" -> k <> "latest:" ++ key -> dict_get k s' = dict_get k s).
Proof.
  intros Hload key s' Hmem Hopen. split; [|split].
  - unfold untrack, bind. rewrite Hload. fold key. rewrite Hmem. cbn [negb].
    fold s'. rewrite (save_state_ok _ _ _ Hopen). unfold reply, emit.
    cbn [fst snd file trace]. rewrite <- !app_assoc. reflexivity.
  - intros other Hne. unfold s', untrack_update.
    rewrite get_tracked_pop_latest, get_tracked_set_tracked.
    now apply dict_get_pop_other.
  - intros k Ht Hl. unfold s', untrack_update, set_tracked.
    rewrite dict_get_pop_other by exact Hl. now apply dict_get_set_other.
Qed.

Lemma untrack_removes_one_series_witness :
  untrack (env_with page_1171 [state_1171] None) "ONE PIECE " world_1171 =
    (Ok tt,
     mkWorld (Some (json_dump (untrack_update "one_piece" state_1171)))
       [Saved (json_dump (untrack_update "one_piece" state_1171));
        Replied "Untracked **one_piece**."]).
Proof.
  apply (@untrack_removes_one_series (env_with page_1171 [state_1171] None)
           "ONE PIECE " state_1171 world_1171);
    reflexivity.
Defined.

(** ** More on the poll loop *)

(** The page of one series cannot be used: the request failed, or the text
    could not be taken, or there is no entry in it. *)
Definition page_unusable (env : Env) (url : string) : Prop :=
  (exists e, http_get env url = Raise e) \/
  (exists html, http_get env url = Ok html /\
     (parse_latest_chapter env html = Ok None \/
      exists e, parse_latest_chapter env html = Raise e)).

(** A series whose page cannot be used is skipped for this cycle: one
    request, one printed line, nothing sent, nothing saved, and the dict
    [state] as it was. *)
Theorem poll_item_skips_unusable_page (env : Env) (send : string -> result unit)
  (name url : string) (st : State) (w : World) :
  page_unusable env url ->
  exists line,
    poll_item env send name url (st, w) =
      (Ok tt, (st, mkWorld (file w) (trace w ++ [Fetched url; Printed line]))).
Proof.
  intros [(e & He) | (html & Hh & [Hp | (e & Hp)])];
    unfold poll_item, poll_item_body, try_except, bind, on_world, fetch_html, bind,
      lift, print, emit, ret; cbn [fst snd file trace].
  - rewrite He. cbn [fst snd file trace]. eexists. rewrite <- !app_assoc. reflexivity.
  - rewrite Hh. cbn [fst snd file trace]. rewrite Hp. cbn [fst snd file trace].
    eexists. rewrite <- !app_assoc. reflexivity.
  - rewrite Hh. cbn [fst snd file trace]. rewrite Hp. cbn [fst snd file trace].
    eexists. rewrite <- !app_assoc. reflexivity.
Qed.

Lemma poll_item_skips_unusable_page_witness :
  exists line,
    poll_item (env_with page_empty [] (Some channel_ok)) channel_ok
      "one_piece" ONE_PIECE_URL (state_1171, world_1171) =
      (Ok tt,
       (state_1171,
        mkWorld (file world_1171)
          (trace world_1171 ++ [Fetched ONE_PIECE_URL; Printed line]))).
Proof.
  apply (@poll_item_skips_unusable_page (env_with page_empty [] (Some channel_ok))
           channel_ok "one_piece" ONE_PIECE_URL state_1171 world_1171).
  right. exists page_empty. split; [reflexivity | left; reflexivity].
Defined.

(** The record [track] stores is the baseline of the poll loop: a turn of
    the loop for the series just tracked, seeing the same chapter, sends
    nothing and saves nothing. *)
Theorem poll_after_track_is_quiet (env : Env) (send : string -> result unit)
  (key url html date ch : string) (s : State) (w : World) :
  http_get env url = Ok html ->
  parse_latest_chapter env html = Ok (Some (date, ch)) ->
  let s' := track_update key url date ch s in
  poll_item env send key url (s', w) =
    (Ok tt,
     (s', mkWorld (file w)
            (trace w ++ [Fetched url;
                         Printed ("[OK] " ++ key ++ ": no change (still Ch. " ++
                                  ch ++ ")")]))).
Proof.
  intros Hget Hparse s'.
  unfold poll_item, poll_item_body, try_except, bind, on_world, fetch_html, bind,
    lift, get_state, print, emit, ret.
  cbn [fst snd file trace]. rewrite Hget. cbn [fst snd file trace].
  rewrite Hparse. cbn [fst snd file trace].
  assert (Hrec : dict_get ("latest:" ++ key) s' = Some (chapter_record date ch url))
    by (unfold s', track_update; apply dict_get_set_same).
  rewrite Hrec. unfold get_ne, chapter_record. cbn [dict_get].
  cbn [String.eqb Ascii.eqb Bool.eqb]. rewrite !String.eqb_refl.
  cbn [negb orb fst snd file trace]. rewrite <- !app_assoc. reflexivity.
Qed.

Lemma poll_after_track_is_quiet_witness :
  poll_item (env_with page_1171 [] (Some channel_ok)) channel_ok
    "one_piece" ONE_PIECE_URL
    (track_update "one_piece" ONE_PIECE_URL "January 18, 2026" "1171" [], world_empty) =
    (Ok tt,
     (track_update "one_piece" ONE_PIECE_URL "January 18, 2026" "1171" [],
      mkWorld (file world_empty)
        (trace world_empty ++
         [Fetched ONE_PIECE_URL;
          Printed ("[OK] " ++ "one_piece" ++ ": no change (still Ch. " ++ "1171" ++ ")")]))).
Proof.
  apply (@poll_after_track_is_quiet (env_with page_1171 [] (Some channel_ok)) channel_ok
           "one_piece" ONE_PIECE_URL page_1171 "January 18, 2026" "1171" [] world_empty);
    reflexivity.
Defined.

(** The send went through and the file then could not be opened: the
    message is out, the error is printed, the file is as it was; the dict
    [state] of this cycle has the new record all the same. *)
Theorem changed_sent_but_not_saved (env : Env) (send : string -> result unit)
  (name url html date ch e : string) (prev : entry) (st : State) (w : World) :
  http_get env url = Ok html ->
  parse_latest_chapter env html = Ok (Some (date, ch)) ->
  dict_get ("latest:" ++ name) st = Some prev ->
  get_ne prev "ch" ch || get_ne prev "date" date = true ->
  let msg := notification env name ch date url in
  let st' := dict_set ("latest:" ++ name) (chapter_record date ch url) st in
  send msg = Ok tt ->
  open_w env (json_dump st') = Raise e ->
  poll_item env send name url (st, w) =
    (Ok tt,
     (st', mkWorld (file w)
             (trace w ++ [Fetched url; Sent msg;
                          Printed ("[ERROR] " ++ name ++ ": " ++ e)]))).
Proof.
  intros Hget Hparse Hprev Hne msg st' Hsend Hopen.
  unfold poll_item, poll_item_body, try_except, bind, on_world, fetch_html, bind,
    lift, get_state, state_set, channel_send, print, emit, ret.
  cbn [fst snd file trace]. rewrite Hget. cbn [fst snd file trace].
  rewrite Hparse. cbn [fst snd file trace]. rewrite Hprev, Hne.
  fold msg. rewrite Hsend. cbn [fst snd file trace]. fold st'.
  unfold save_state. rewrite Hopen. cbn [fst snd file trace].
  rewrite <- !app_assoc. reflexivity.
Qed.

(** An environment like [env_with] whose state file cannot be written. *)
Definition env_read_only (page : string) (known : list State)
  (channel : option (string -> result unit)) : Env :=
  mkEnv (http_get (env_with page known channel))
        (soup_get_text (env_with page known channel))
        (json_load (env_with page known channel))
        (fun _ => Raise "[Errno 13] Permission denied: 'state.json'")
        channel
        (CHANNEL_ID (env_with page known channel))
        (str_title (env_with page known channel)).

Lemma changed_sent_but_not_saved_witness :
  poll_item (env_read_only page_1172 [state_1171] (Some channel_ok)) channel_ok
    "one_piece" ONE_PIECE_URL (state_1171, world_1171) =
    (Ok tt,
     (dict_set ("latest:" ++ "one_piece")
        (chapter_record "January 25, 2026" "1172" ONE_PIECE_URL) state_1171,
      mkWorld (file world_1171)
        (trace world_1171 ++
         [Fetched ONE_PIECE_URL;
          Sent (notification (env_read_only page_1172 [state_1171] (Some channel_ok))
                  "one_piece" "1172" "January 25, 2026" ONE_PIECE_URL);
          Printed ("[ERROR] " ++ "one_piece" ++ ": " ++
                   "[Errno 13] Permission denied: 'state.json'")]))).
Proof.
  apply (@changed_sent_but_not_saved
           (env_read_only page_1172 [state_1171] (Some channel_ok)) channel_ok
           "one_piece" ONE_PIECE_URL page_1172 "January 25, 2026" "1172"
           "[Errno 13] Permission denied: 'state.json'"
           (chapter_record "January 18, 2026" "1171" ONE_PIECE_URL)
           state_1171 world_1171);
    reflexivity.
Defined.

(** *** The loop as a whole *)

(** The messages delivered to the channel, in order. *)
Fixpoint sent (evs : list event) : list string :=
  match evs with
  | [] => []
  | Sent msg :: evs' => msg :: sent evs'
  | _ :: evs' => sent evs'
  end.

Lemma sent_app a b : sent (a ++ b) = (sent a ++ sent b)%list.
Proof.
  induction a as [|e a IH]; simpl; [reflexivity|].
  destruct e; simpl; now rewrite IH.
Qed.

Lemma existsb_saved_app a b :
  List.existsb is_saved (a ++ b) = List.existsb is_saved a || List.existsb is_saved b.
Proof. apply existsb_app. Qed.

(** A turn of the loop, with what it sent and what became of [state]. *)
Lemma poll_item_shape env send name url st w :
  exists st' f' evs,
    poll_item env send name url (st, w) = (Ok tt, (st', mkWorld f' (trace w ++ evs))) /\
    (sent evs = [] \/ exists d c, sent evs = [notification env name c d url]) /\
    (st' = st \/ exists d c, st' = dict_set ("latest:" ++ name) (chapter_record d c url) st).
Proof.
  run_poll.
  destruct (http_get env url) as [html|e]; simpl;
    [|do 3 eexists; rewrite <- ?app_assoc; simpl; repeat split; auto].
  destruct (parse_latest_chapter env html) as [[[d c]|]|e]; simpl;
    [|do 3 eexists; rewrite <- ?app_assoc; simpl; repeat split; auto
     |do 3 eexists; rewrite <- ?app_assoc; simpl; repeat split; auto].
  destruct (dict_get _ st) as [prev|]; simpl.
  - destruct (get_ne prev "ch" c || get_ne prev "date" d); simpl;
      [|do 3 eexists; rewrite <- ?app_assoc; simpl; repeat split; auto].
    destruct (send _) as [u|e]; simpl;
      [|do 3 eexists; rewrite <- ?app_assoc; simpl; repeat split; auto].
    unfold save_state. simpl. destruct (open_w env _) as [u'|e]; simpl;
      do 3 eexists; rewrite <- ?app_assoc; simpl;
      (split; [reflexivity|]); split; right; exists d, c; reflexivity.
  - unfold save_state. simpl. destruct (open_w env _) as [u'|e]; simpl;
      do 3 eexists; rewrite <- ?app_assoc; simpl;
      (split; [reflexivity|]); (split; [now left|]); right; exists d, c; reflexivity.
Qed.

Lemma poll_loop_cons env send name url rest sw :
  poll_loop env send ((name, url) :: rest) sw =
  poll_loop env send rest (snd (poll_item env send name url sw)).
Proof.
  cbn [poll_loop]. unfold bind. destruct sw as [st w].
  destruct (poll_item_shape env send name url st w) as (st' & f' & evs & -> & _).
  reflexivity.
Qed.


(** A cycle leaves the tracked table alone, changes no key but the records
    of the series it polls, and removes no key. *)
Theorem poll_loop_touches_records_only (env : Env) (send : string -> result unit)
  (items : list (string * string)) (st : State) (w : World) :
  let st' := fst (snd (poll_loop env send items (st, w))) in
  get_tracked st' = get_tracked st /\
  (forall k, (forall name url, In (name, url) items -> k <> "latest:" ++ name) ->
     dict_get k st' = dict_get k st) /\
  (forall k, dict_mem k st = true -> dict_mem k st' = true).
Proof.
  revert st w. induction items as [|[name url] rest IH]; intros st w.
  - simpl. auto.
  - cbn zeta. rewrite poll_loop_cons.
    pose proof (poll_item_state env send name url st w) as Hst.
    destruct (poll_item env send name url (st, w)) as [r [st1 w1]]. cbn [fst snd] in *.
    destruct (IH st1 w1) as (Ht & Hk & Hm). split; [|split].
    + rewrite Ht. destruct Hst as [-> | (d & c & ->)];
        [reflexivity | apply get_tracked_set_latest].
    + intros k Hne. rewrite Hk by (intros n u Hin; apply (Hne n u); now right).
      destruct Hst as [-> | (d & c & ->)]; [reflexivity|].
      apply dict_get_set_other. apply (Hne name url). now left.
    + intros k Hmem. apply Hm. destruct Hst as [-> | (d & c & ->)]; [exact Hmem|].
      apply dict_mem_In, dict_keys_set. right. now apply dict_mem_In.
Qed.

(** With an empty tracked table, or with no channel, [poll_updates] prints
    one line and does nothing else: no request, no message, no save. *)
Theorem poll_updates_without_work (env : Env) (w : World) (s : State) :
  load_state env w = (Ok s, w) ->
  get_tracked s = [] \/ get_channel env = None ->
  exists line,
    poll_updates env w = (Ok tt, mkWorld (file w) (trace w ++ [Printed line])).
Proof.
  intros Hload H. unfold poll_updates, bind. rewrite Hload.
  destruct (get_tracked s) as [|item items]; [eexists; reflexivity|].
  destruct H as [H | H]; [discriminate|]. rewrite H. eexists. reflexivity.
Qed.

Lemma poll_updates_without_work_witness :
  exists line,
    poll_updates (env_with page_1172 [state_1171] None) world_1171 =
      (Ok tt, mkWorld (file world_1171) (trace world_1171 ++ [Printed line])).
Proof.
  apply (@poll_updates_without_work (env_with page_1172 [state_1171] None)
           world_1171 state_1171).
  - reflexivity.
  - right. reflexivity.
Defined.

(** *** A second cycle over unchanged pages *)

(** The record of a series agrees with what its page shows now (or the page
    cannot be used). *)
Definition settled (env : Env) (st : State) (name url : string) : Prop :=
  forall html d c,
    http_get env url = Ok html ->
    parse_latest_chapter env html = Ok (Some (d, c)) ->
    exists prev,
      dict_get ("latest:" ++ name) st = Some prev /\
      get_ne prev "ch" c || get_ne prev "date" d = false.

Lemma get_ne_chapter_record d c u :
  get_ne (chapter_record d c u) "ch" c || get_ne (chapter_record d c u) "date" d = false.
Proof.
  unfold get_ne, chapter_record. cbn [dict_get String.eqb Ascii.eqb Bool.eqb].
  now rewrite !String.eqb_refl.
Qed.

Lemma latest_key_inj a b : "latest:" ++ a = "latest:" ++ b -> a = b.
Proof. simpl. intros H. now injection H. Qed.

Lemma poll_item_settled_quiet env send name url st w :
  settled env st name url ->
  exists line,
    poll_item env send name url (st, w) =
      (Ok tt, (st, mkWorld (file w) (trace w ++ [Fetched url; Printed line]))).
Proof.
  intros Hs.
  unfold poll_item, poll_item_body, try_except, bind, on_world, fetch_html, bind,
    lift, get_state, print, emit, ret. cbn [fst snd file trace].
  destruct (http_get env url) as [html|e] eqn:Hget; cbn [fst snd file trace];
    [|eexists; rewrite <- !app_assoc; reflexivity].
  destruct (parse_latest_chapter env html) as [[[d c]|]|e] eqn:Hparse;
    cbn [fst snd file trace];
    [|eexists; rewrite <- !app_assoc; reflexivity
     |eexists; rewrite <- !app_assoc; reflexivity].
  destruct (Hs html d c Hget Hparse) as (prev & -> & ->).
  cbn [fst snd file trace]. eexists. rewrite <- !app_assoc. reflexivity.
Qed.

Lemma poll_item_settles env send name url st w :
  (forall msg, send msg = Ok tt) ->
  settled env (fst (snd (poll_item env send name url (st, w)))) name url.
Proof.
  intros Hsend html d c Hget Hparse.
  unfold poll_item, poll_item_body, try_except, bind, on_world, fetch_html, bind,
    lift, get_state, state_set, channel_send, print, emit, ret.
  cbn [fst snd file trace]. rewrite Hget. cbn [fst snd file trace].
  rewrite Hparse. cbn [fst snd file trace].
  destruct (dict_get ("latest:" ++ name) st) as [prev|] eqn:Hprev.
  - destruct (get_ne prev "ch" c || get_ne prev "date" d) eqn:Hne.
    + rewrite Hsend. cbn [fst snd file trace].
      match goal with
      | |- context [save_state env ?s0 ?w0] =>
          destruct (save_state env s0 w0) as [[u|e] w1]
      end; cbn [fst snd];
        (eexists; split; [apply dict_get_set_same | apply get_ne_chapter_record]).
    + cbn [fst snd]. eauto.
  - cbn [fst snd file trace].
    match goal with
    | |- context [save_state env ?s0 ?w0] =>
        destruct (save_state env s0 w0) as [[u|e] w1]
    end; cbn [fst snd];
      (eexists; split; [apply dict_get_set_same | apply get_ne_chapter_record]).
Qed.

Lemma poll_item_keeps_settled env send name url st w name' url' :
  name' <> name ->
  settled env st name' url' ->
  settled env (fst (snd (poll_item env send name url (st, w)))) name' url'.
Proof.
  intros Hne Hs.
  destruct (poll_item_state env send name url st w) as [-> | (d0 & c0 & ->)];
    [exact Hs|].
  intros html d c Hget Hparse. destruct (Hs html d c Hget Hparse) as (prev & Hp & Hq).
  exists prev. split; [|exact Hq].
  rewrite dict_get_set_other; [exact Hp|]. intros H. apply latest_key_inj in H. congruence.
Qed.

Lemma poll_loop_keeps_settled env send items name' url' : forall st w,
  ~ In name' (List.map fst items) ->
  settled env st name' url' ->
  settled env (fst (snd (poll_loop env send items (st, w)))) name' url'.
Proof.
  induction items as [|[name url] rest IH]; intros st w Hnin Hs; [exact Hs|].
  rewrite poll_loop_cons.
  pose proof (@poll_item_keeps_settled env send name url st w name' url') as Hk.
  destruct (poll_item env send name url (st, w)) as [r [st1 w1]]. cbn [fst snd] in *.
  apply IH.
  - intros Hin. apply Hnin. now right.
  - apply Hk; [|exact Hs]. intros ->. apply Hnin. now left.
Qed.

Lemma poll_loop_settles env send items : forall st w,
  NoDup (List.map fst items) ->
  (forall msg, send msg = Ok tt) ->
  forall name url, In (name, url) items ->
    settled env (fst (snd (poll_loop env send items (st, w)))) name url.
Proof.
  induction items as [|[n u] rest IH]; intros st w Hnd Hsend name url Hin; [destruct Hin|].
  rewrite poll_loop_cons. inversion Hnd as [|? ? Hnin Hnd']; subst.
  pose proof (@poll_item_settles env send n u st w Hsend) as Hset.
  destruct (poll_item env send n u (st, w)) as [r [st1 w1]]. cbn [fst snd] in *.
  destruct Hin as [Heq | Hin].
  - injection Heq as <- <-. now apply poll_loop_keeps_settled.
  - now apply IH.
Qed.

Lemma poll_loop_settled_quiet env send items : forall st w,
  (forall name url, In (name, url) items -> settled env st name url) ->
  exists evs,
    poll_loop env send items (st, w) = (Ok tt, (st, mkWorld (file w) (trace w ++ evs))) /\
    sent evs = [] /\ List.existsb is_saved evs = false.
Proof.
  induction items as [|[n u] rest IH]; intros st w Hall.
  - exists []. simpl. unfold ret. rewrite app_nil_r. destruct w. auto.
  - rewrite poll_loop_cons.
    destruct (@poll_item_settled_quiet env send n u st w) as (line & ->);
      [apply Hall; now left|].
    cbn [snd].
    destruct (IH st (mkWorld (file w) (trace w ++ [Fetched u; Printed line])))
      as (evs & -> & Hsent & Hsaved); [intros; apply Hall; now right|].
    exists ([Fetched u; Printed line] ++ evs)%list. cbn [file trace].
    rewrite <- app_assoc. split; [reflexivity|].
    rewrite sent_app, existsb_saved_app, Hsent, Hsaved. auto.
Qed.

Lemma poll_loop_keeps_tracked env send items : forall st w,
  get_tracked (fst (snd (poll_loop env send items (st, w)))) = get_tracked st.
Proof.
  induction items as [|[n u] rest IH]; intros st w; [reflexivity|].
  rewrite poll_loop_cons.
  pose proof (poll_item_keeps_tracked env send n u st w) as Hk.
  destruct (poll_item env send n u (st, w)) as [r [st1 w1]]. cbn [fst snd] in *.
  now rewrite IH.
Qed.

(** When the sends of a cycle went through and the next cycle reads back
    the state the first one ended with, the next cycle over the same pages
    sends nothing and saves nothing: a change is announced once. *)
Theorem poll_updates_second_cycle_is_quiet (env : Env) (send : string -> result unit)
  (w : World) (s : State) :
  load_state env w = (Ok s, w) ->
  get_channel env = Some send ->
  NoDup (dict_keys (get_tracked s)) ->
  (forall msg, send msg = Ok tt) ->
  let st1 := fst (snd (poll_loop env send (get_tracked s) (s, w))) in
  let w1 := snd (poll_updates env w) in
  load_state env w1 = (Ok st1, w1) ->
  exists evs,
    poll_updates env w1 = (Ok tt, mkWorld (file w1) (trace w1 ++ evs)) /\
    sent evs = [] /\ List.existsb is_saved evs = false.
Proof.
  intros Hload Hchan Hnd Hsend st1 w1 Hload1.
  assert (Ht : get_tracked st1 = get_tracked s) by apply poll_loop_keeps_tracked.
  unfold poll_updates at 1. unfold bind. rewrite Hload1, Ht.
  destruct (get_tracked s) as [|item items] eqn:Hitems.
  - exists [Printed "[OK] No tracked series. Use /track to add some."].
    unfold print, emit. auto.
  - rewrite Hchan.
    destruct (@poll_loop_settled_quiet env send (item :: items) st1 w1)
      as (evs & -> & Hsent & Hsaved).
    + intros name url Hin. unfold st1. apply poll_loop_settles; assumption.
    + exists evs. auto.
Qed.

Lemma poll_updates_second_cycle_is_quiet_witness :
  exists evs,
    poll_updates (env_with page_1172 [state_1171; state_1172] (Some channel_ok))
      (snd (poll_updates (env_with page_1172 [state_1171; state_1172] (Some channel_ok))
              world_1171)) =
      (Ok tt,
       mkWorld
         (file (snd (poll_updates
                       (env_with page_1172 [state_1171; state_1172] (Some channel_ok))
                       world_1171)))
         (trace (snd (poll_updates
                        (env_with page_1172 [state_1171; state_1172] (Some channel_ok))
                        world_1171)) ++ evs)) /\
    sent evs = [] /\ List.existsb is_saved evs = false.
Proof.
  apply (@poll_updates_second_cycle_is_quiet
           (env_with page_1172 [state_1171; state_1172] (Some channel_ok)) channel_ok
           world_1171 state_1171).
  - reflexivity.
  - reflexivity.
  - repeat constructor; simpl; intuition.
  - intros msg. reflexivity.
  - vm_compute. reflexivity.
Defined.

(** ** More on names *)

(** A string that is empty or has no whitespace at either end. *)
Definition head_clean (s : string) : bool :=
  match s with
  | EmptyString => true
  | String c _ => negb (isspace c)
  end.

Definition ends_clean (s : string) : bool := head_clean s && head_clean (Str.rev s).

Lemma drop_while_head_clean s : head_clean (Str.drop_while isspace s) = true.
Proof.
  induction s as [|c s IH]; simpl; [reflexivity|].
  destruct (isspace c) eqn:E; [exact IH | simpl; now rewrite E].
Qed.

Lemma head_clean_drop_while s : head_clean s = true -> Str.drop_while isspace s = s.
Proof.
  destruct s as [|c s]; simpl; [reflexivity|].
  intros H. apply negb_true_iff in H. now rewrite H.
Qed.

Lemma rev_snoc s c : Str.rev (s ++ String c "") = String c (Str.rev s).
Proof. now rewrite Str.rev_append. Qed.

(** [rstrip] keeps a first character that is not whitespace. *)
Lemma rstrip_head_clean s : head_clean s = true -> head_clean (rstrip s) = true.
Proof.
  destruct s as [|c s]; [reflexivity|]. simpl. intros Hc. apply negb_true_iff in Hc.
  unfold rstrip. cbn [Str.rev]. rewrite drop_while_append.
  destruct (Str.all isspace (Str.rev s)).
  - simpl. rewrite Hc. simpl. now rewrite Hc.
  - rewrite rev_snoc. simpl. now rewrite Hc.
Qed.

Lemma strip_ends_clean s : ends_clean (strip s) = true.
Proof.
  unfold ends_clean, strip. apply andb_true_iff. split.
  - apply rstrip_head_clean. unfold lstrip. apply drop_while_head_clean.
  - unfold rstrip. rewrite Str.rev_involutive. apply drop_while_head_clean.
Qed.

Lemma ends_clean_strip s : ends_clean s = true -> strip s = s.
Proof.
  unfold ends_clean. intros H. apply andb_true_iff in H as [Hh Hl].
  unfold strip, lstrip, rstrip. rewrite (head_clean_drop_while _ Hh).
  rewrite (head_clean_drop_while _ Hl). apply Str.rev_involutive.
Qed.

Lemma head_clean_map f s :
  (forall c, isspace c = false -> isspace (f c) = false) ->
  head_clean s = true -> head_clean (Str.map f s) = true.
Proof.
  intros Hf. destruct s as [|c s]; simpl; [reflexivity|].
  intros H. apply negb_true_iff in H. now rewrite (Hf c H).
Qed.

Lemma ends_clean_map f s :
  (forall c, isspace c = false -> isspace (f c) = false) ->
  ends_clean s = true -> ends_clean (Str.map f s) = true.
Proof.
  intros Hf. unfold ends_clean. intros H. apply andb_true_iff in H as [Hh Hl].
  rewrite <- Str.map_rev. now rewrite !head_clean_map.
Qed.

Definition blank_to_underscore (c : ascii) : ascii :=
  if Ascii.eqb c " " then "_"%char else c.

Lemma blank_to_underscore_clean c :
  isspace c = false -> isspace (blank_to_underscore c) = false.
Proof.
  unfold blank_to_underscore. destruct (Ascii.eqb c " ") eqn:E; [|auto].
  intros _. reflexivity.
Qed.

Lemma lower_char_clean c : isspace c = false -> isspace (lower_char c) = false.
Proof. intros H. now rewrite isspace_lower_char. Qed.

Lemma lower_char_idempotent c : lower_char (lower_char c) = lower_char c.
Proof. destruct c as [[] [] [] [] [] [] [] []]; reflexivity. Qed.

Lemma lower_char_blank_to_underscore c :
  lower_char (blank_to_underscore c) = blank_to_underscore (lower_char c).
Proof. destruct c as [[] [] [] [] [] [] [] []]; reflexivity. Qed.

Lemma blank_to_underscore_idempotent c :
  blank_to_underscore (blank_to_underscore c) = blank_to_underscore c.
Proof. destruct c as [[] [] [] [] [] [] [] []]; reflexivity. Qed.

Lemma map_map_string f g s : Str.map f (Str.map g s) = Str.map (fun c => f (g c)) s.
Proof. induction s as [|c s IH]; simpl; [reflexivity | now rewrite IH]. Qed.

Lemma map_ext_string f g s : (forall c, f c = g c) -> Str.map f s = Str.map g s.
Proof. intros H. induction s as [|c s IH]; simpl; [reflexivity | now rewrite H, IH]. Qed.

Lemma normalize_name_unfold name :
  normalize_name name = Str.map blank_to_underscore (Str.map lower_char (strip name)).
Proof. reflexivity. Qed.

(** The key the bot shows can be typed back: normalising a normalised name
    changes nothing, so [/untrack one_piece] addresses what
    [/track "One Piece"] created. *)
Theorem normalize_name_idempotent (name : string) :
  normalize_name (normalize_name name) = normalize_name name.
Proof.
  rewrite (normalize_name_unfold (normalize_name name)).
  rewrite ends_clean_strip.
  - rewrite normalize_name_unfold, !map_map_string. apply map_ext_string. intros c.
    rewrite lower_char_blank_to_underscore, lower_char_idempotent.
    apply blank_to_underscore_idempotent.
  - rewrite normalize_name_unfold.
    apply ends_clean_map; [exact blank_to_underscore_clean|].
    apply ends_clean_map; [exact lower_char_clean|]. apply strip_ends_clean.
Qed.

(** What a key is made of: neither a blank nor a letter [A-Z]. *)
Definition key_char (c : ascii) : bool := negb (Ascii.eqb c " ") && negb (cls_AZ c).

Lemma key_char_normalized c : key_char (blank_to_underscore (lower_char c)) = true.
Proof. destruct c as [[] [] [] [] [] [] [] []]; reflexivity. Qed.

(** A key has no blank and no letter [A-Z] anywhere, and no whitespace at
    its ends. *)
Theorem normalize_name_shape (name : string) :
  Str.all key_char (normalize_name name) = true /\
  strip (normalize_name name) = normalize_name name.
Proof.
  split.
  - rewrite normalize_name_unfold, map_map_string.
    induction (strip name) as [|c s IH]; simpl; [reflexivity|].
    now rewrite key_char_normalized, IH.
  - apply ends_clean_strip. rewrite normalize_name_unfold.
    apply ends_clean_map; [exact blank_to_underscore_clean|].
    apply ends_clean_map; [exact lower_char_clean|]. apply strip_ends_clean.
Qed.

(** ** Which URLs the bot requests *)







(** ** [/list] *)

(** U+2014 and U+2022 as the bytes of their UTF-8 encoding. *)
Definition EM_DASH : string :=
  String (ascii_of_nat 226) (String (ascii_of_nat 128) (String (ascii_of_nat 148) "")).
Definition BULLET : string :=
  String (ascii_of_nat 226) (String (ascii_of_nat 128) (String (ascii_of_nat 162) "")).

(** [d.get(key, default)] *)
Definition get_default (d : entry) (key default : string) : string :=
  match dict_get key d with
  | Some v => v
  | None => default
  end.

(** The line of one series in the body of the [for] loop of [list_tracked]. *)
Definition list_line (state : State) (name url : string) : string :=
  let latest :=
    match dict_get ("latest:" ++ name) state with
    | Some e => e
    | None => []
    end in
  let ch := get_default latest "ch" EM_DASH in
  let date := get_default latest "date" EM_DASH in
  BULLET ++ " **" ++ name ++ "** " ++ EM_DASH ++ " Ch. " ++ ch ++ " (" ++ date ++ ")" ++
  LF ++ "  " ++ url.

Definition list_lines (state : State) : list string :=
  List.map (fun item => list_line state (fst item) (snd item)) (get_tracked state).

(** [list_tracked] *)
Definition list_tracked (env : Env) : M World unit :=
  state <- load_state env ;;
  let tracked := get_tracked state in
  match tracked with
  | [] => reply "No tracked series yet. Use `/track`."
  | _ => reply (String.concat LF (list_lines state))
  end.

Lemma In_dict_set (V : Type) k (v : V) d : In (k, v) (dict_set k v d).
Proof.
  induction d as [|[k0 v0] d IH]; simpl; [now left|].
  destruct (String.eqb k k0) eqn:E; simpl; [|now right].
  apply String.eqb_eq in E. subst. now left.
Qed.

Lemma In_dict_pop_name (V : Type) k d k' (v' : V) :
  NoDup (dict_keys d) -> In (k', v') (dict_pop k d) -> k' <> k.
Proof.
  intros Hnd Hin. apply (in_map fst) in Hin. cbn [fst] in Hin.
  apply dict_keys_pop in Hin as [Hne _]; assumption.
Qed.

Lemma list_line_other_record key v s name url :
  name <> key ->
  list_line (dict_set ("latest:" ++ key) v s) name url = list_line s name url.
Proof.
  intros Hne. unfold list_line. rewrite dict_get_set_other; [reflexivity|].
  intros H. apply latest_key_inj in H. congruence.
Qed.

Lemma list_line_set_tracked t s name url :
  list_line (set_tracked s t) name url = list_line s name url.
Proof.
  unfold list_line, set_tracked. rewrite dict_get_set_other; [reflexivity|].
  intros H. symmetry in H. exact (latest_not_tracked H).
Qed.

(** [/list] after a [/track]: the reply is the lines of the table joined by
    newlines, the file is not touched, the line of the series just tracked
    shows its chapter and date, and the lines of the other series are what
    they were. *)
Theorem list_shows_tracked_series (env : Env) (w : World) (s : State)
  (key url date ch : string) :
  let s' := track_update key url date ch s in
  load_state env w = (Ok s', w) ->
  list_tracked env w =
    (Ok tt, mkWorld (file w) (trace w ++ [Replied (String.concat LF (list_lines s'))])) /\
  In (BULLET ++ " **" ++ key ++ "** " ++ EM_DASH ++ " Ch. " ++ ch ++ " (" ++ date ++ ")" ++
      LF ++ "  " ++ url) (list_lines s') /\
  (forall name u, name <> key -> list_line s' name u = list_line s name u).
Proof.
  intros s' Hload.
  assert (Hin : In (key, url) (get_tracked s')).
  { unfold s', track_update. rewrite get_tracked_set_latest, get_tracked_set_tracked.
    apply In_dict_set. }
  split; [|split].
  - unfold list_tracked, bind. rewrite Hload.
    destruct (get_tracked s') as [|item items]; [destruct Hin | reflexivity].
  - unfold list_lines. apply in_map_iff. exists (key, url). split; [|exact Hin].
    cbn [fst snd]. unfold list_line, s', track_update. rewrite dict_get_set_same.
    reflexivity.
  - intros name u Hne. unfold s', track_update.
    rewrite list_line_other_record by exact Hne. apply list_line_set_tracked.
Qed.

Lemma list_shows_tracked_series_witness :
  list_tracked (env_with page_1171 [state_1171] None) world_1171 =
    (Ok tt,
     mkWorld (file world_1171)
       (trace world_1171 ++
        [Replied (String.concat LF
                    (list_lines (track_update "one_piece" ONE_PIECE_URL
                                   "January 18, 2026" "1171" [])))])).
Proof.
  apply (@list_shows_tracked_series (env_with page_1171 [state_1171] None) world_1171 []
           "one_piece" ONE_PIECE_URL "January 18, 2026" "1171").
  reflexivity.
Defined.

(** [/list] after an [/untrack], in a state where each name is there once:
    the lines are those of the other series, unchanged, and none is for the
    series untracked. *)
Theorem list_after_untrack (s : State) (key : string) :
  NoDup (dict_keys (get_tracked s)) ->
  list_lines (untrack_update key s) =
    List.map (fun item => list_line s (fst item) (snd item))
             (dict_pop key (get_tracked s)) /\
  (forall name url, In (name, url) (get_tracked (untrack_update key s)) -> name <> key).
Proof.
  intros Hnd. unfold list_lines, untrack_update.
  rewrite get_tracked_pop_latest, get_tracked_set_tracked. split.
  - apply map_ext_in. intros [name url] Hin. cbn [fst snd].
    assert (Hne : name <> key) by exact (In_dict_pop_name _ _ Hnd Hin).
    unfold list_line. rewrite dict_get_pop_other.
    + unfold set_tracked. rewrite dict_get_set_other; [reflexivity|].
      intros H. symmetry in H. exact (latest_not_tracked H).
    + intros H. apply latest_key_inj in H. congruence.
  - intros name url Hin. exact (In_dict_pop_name _ _ Hnd Hin).
Qed.

Lemma list_after_untrack_witness :
  list_lines (untrack_update "one_piece" state_1171) =
    List.map (fun item => list_line state_1171 (fst item) (snd item))
             (dict_pop "one_piece" (get_tracked state_1171)).
Proof.
  apply (@list_after_untrack state_1171 "one_piece").
  repeat constructor; simpl; intuition.
Defined.

(** ** Start-up: [on_ready] *)

From Stdlib Require Import ZArith DecimalString.

(** What [on_ready] asks of the Discord client, in order; each call is
    recorded when it is made. *)
Inductive startup_event : Type :=
| Logged (line : string)            (* [print] *)
| CopyGlobalTo (guild : Z)          (* [tree.copy_global_to(guild=..)] *)
| Sync (guild : option Z)           (* [tree.sync(guild=..)], [tree.sync()] *)
| LoopStart.                        (* [poll_updates.start()] *)

Record Gateway : Type := mkGateway {
  client_user : string;                       (* [str(client.user)] *)
  client_user_id : string;                    (* [str(client.user.id)] *)
  GUILD_ID : Z;
  copy_global_to : Z -> result unit;
  tree_sync : option Z -> result unit;
  poll_updates_start : result unit
}.

(** [str(n)] for an [int]. *)
Definition str_int (n : Z) : string := NilZero.string_of_int (Z.to_int n).

Definition call (e : startup_event) (r : result unit) : M (list startup_event) unit :=
  fun t => (r, (t ++ [e])%list).

Definition log (line : string) : M (list startup_event) unit := call (Logged line) (Ok tt).

(** [on_ready] *)
Definition on_ready (g : Gateway) : M (list startup_event) unit :=
  log ("Logged in as " ++ client_user g ++ " (id=" ++ client_user_id g ++ ")") ;;;
  try_except
    (if Z.eqb (GUILD_ID g) 0 then
       call (Sync None) (tree_sync g None) ;;;
       log "Slash commands synced globally (may take time to appear)."
     else
       call (CopyGlobalTo (GUILD_ID g)) (copy_global_to g (GUILD_ID g)) ;;;
       call (Sync (Some (GUILD_ID g))) (tree_sync g (Some (GUILD_ID g))) ;;;
       log ("Slash commands synced to guild " ++ str_int (GUILD_ID g)))
    (fun e => log ("[WARN] Command sync issue: " ++ e)) ;;;
  call LoopStart (poll_updates_start g).

Definition is_guild_call (e : startup_event) : bool :=
  match e with
  | CopyGlobalTo _ | Sync (Some _) => true
  | _ => false
  end.

(** Whatever the command sync does, [on_ready] goes on to start the poll
    loop, and ends as that call ends; a sync that raises is printed as a
    warning; with [GUILD_ID] 0 the sync is the global one and no call names a
    guild. *)
Theorem on_ready_always_starts_the_loop (g : Gateway) (t : list startup_event) :
  exists evs,
    on_ready g t =
      (poll_updates_start g,
       (t ++ Logged ("Logged in as " ++ client_user g ++
                     " (id=" ++ client_user_id g ++ ")") :: evs ++ [LoopStart])%list) /\
    (GUILD_ID g = 0%Z ->
     List.existsb is_guild_call evs = false /\ In (Sync None) evs) /\
    (forall e, tree_sync g (if Z.eqb (GUILD_ID g) 0 then None else Some (GUILD_ID g)) = Raise e ->
       copy_global_to g (GUILD_ID g) = Ok tt ->
       In (Logged ("[WARN] Command sync issue: " ++ e)) evs).
Proof.
  unfold on_ready, bind, try_except, log, call. cbn [fst snd].
  destruct (Z.eqb (GUILD_ID g) 0) eqn:Hg.
  - destruct (tree_sync g None) as [u|e0] eqn:Hs; cbn [fst snd].
    + exists [Sync None;
              Logged "Slash commands synced globally (may take time to appear)."].
      rewrite <- !app_assoc. cbn [app]. split; [reflexivity|]. split.
      * intros _. split; [reflexivity | now left].
      * intros e He. discriminate.
    + exists [Sync None; Logged ("[WARN] Command sync issue: " ++ e0)].
      rewrite <- !app_assoc. cbn [app]. split; [reflexivity|]. split.
      * intros _. split; [reflexivity | now left].
      * intros e He _. injection He as ->. right. now left.
  - apply Z.eqb_neq in Hg.
    destruct (copy_global_to g (GUILD_ID g)) as [u|e0] eqn:Hc; cbn [fst snd].
    + destruct (tree_sync g (Some (GUILD_ID g))) as [u'|e1] eqn:Hs; cbn [fst snd].
      * exists [CopyGlobalTo (GUILD_ID g); Sync (Some (GUILD_ID g));
                Logged ("Slash commands synced to guild " ++ str_int (GUILD_ID g))].
        rewrite <- !app_assoc. cbn [app]. split; [reflexivity|]. split.
        -- intros H0. congruence.
        -- intros e He. discriminate.
      * exists [CopyGlobalTo (GUILD_ID g); Sync (Some (GUILD_ID g));
                Logged ("[WARN] Command sync issue: " ++ e1)].
        rewrite <- !app_assoc. cbn [app]. split; [reflexivity|]. split.
        -- intros H0. congruence.
        -- intros e He _. injection He as ->. right. right. now left.
    + exists [CopyGlobalTo (GUILD_ID g); Logged ("[WARN] Command sync issue: " ++ e0)].
      rewrite <- !app_assoc. cbn [app]. split; [reflexivity|]. split.
      * intros H0. congruence.
      * intros e _ H. discriminate.
Qed.

Definition gateway_sync_down : Gateway :=
  mkGateway "MangaBot#0042" "1001" 0 (fun _ => Ok tt)
            (fun _ => Raise "503 Service Unavailable") (Ok tt).

Lemma on_ready_always_starts_the_loop_witness :
  exists evs,
    on_ready gateway_sync_down [] =
      (poll_updates_start gateway_sync_down,
       ([] ++ Logged ("Logged in as " ++ client_user gateway_sync_down ++
                      " (id=" ++ client_user_id gateway_sync_down ++ ")") ::
              evs ++ [LoopStart])%list) /\
    (GUILD_ID gateway_sync_down = 0%Z ->
     List.existsb is_guild_call evs = false /\ In (Sync None) evs) /\
    (forall e,
       tree_sync gateway_sync_down
         (if Z.eqb (GUILD_ID gateway_sync_down) 0 then None
          else Some (GUILD_ID gateway_sync_down)) = Raise e ->
       copy_global_to gateway_sync_down (GUILD_ID gateway_sync_down) = Ok tt ->
       In (Logged ("[WARN] Command sync issue: " ++ e)) evs).
Proof.
  apply (on_ready_always_starts_the_loop gateway_sync_down []).
Defined.

(** ** The document determines the state

    [json_dump] can be read back: a reader for the documents it writes,
    used to show that two states with the same document are the same state. *)

Definition hex_value (c : ascii) : option nat :=
  let n := code c in
  if Nat.leb 48 n && Nat.leb n 57 then Some (n - 48)
  else if Nat.leb 97 n && Nat.leb n 102 then Some (n - 87)
  else None.

Definition hex4 (h1 h2 h3 h4 : ascii) : option ascii :=
  match hex_value h1, hex_value h2, hex_value h3, hex_value h4 with
  | Some a, Some b, Some c, Some d => Some (ascii_of_nat (((a * 16 + b) * 16 + c) * 16 + d))
  | _, _, _, _ => None
  end.

(** The character a two-character escape stands for. *)
Definition short_escape (e : ascii) : option ascii :=
  let n := code e in
  if Nat.eqb n 34 then Some e
  else if Nat.eqb n 92 then Some e
  else if Nat.eqb n 98 then Some (ascii_of_nat 8)
  else if Nat.eqb n 102 then Some (ascii_of_nat 12)
  else if Nat.eqb n 110 then Some (ascii_of_nat 10)
  else if Nat.eqb n 114 then Some (ascii_of_nat 13)
  else if Nat.eqb n 116 then Some (ascii_of_nat 9)
  else None.

Definition cons_char (c : ascii) (r : option (string * string)) : option (string * string) :=
  match r with
  | Some (s, rest) => Some (String c s, rest)
  | None => None
  end.

(** The characters of a string literal up to its closing quote, and the
    text after the quote. *)
Fixpoint read_chars (s : string) : option (string * string) :=
  match s with
  | EmptyString => None
  | String c s1 =>
      if Nat.eqb (code c) 34 then Some ("", s1)
      else if Nat.eqb (code c) 92 then
        match s1 with
        | EmptyString => None
        | String e s2 =>
            match short_escape e with
            | Some x => cons_char x (read_chars s2)
            | None =>
                if Nat.eqb (code e) 117 then
                  match s2 with
                  | String h1 (String h2 (String h3 (String h4 s3))) =>
                      match hex4 h1 h2 h3 h4 with
                      | Some x => cons_char x (read_chars s3)
                      | None => None
                      end
                  | _ => None
                  end
                else None
            end
        end
      else cons_char c (read_chars s1)
  end.

Definition read_string (s : string) : option (string * string) :=
  match s with
  | String c s1 => if Nat.eqb (code c) 34 then read_chars s1 else None
  | EmptyString => None
  end.

(** [expect p s]: [s] without its prefix [p]. *)
Fixpoint expect (p s : string) : option string :=
  match p with
  | EmptyString => Some s
  | String c p' =>
      match s with
      | String c' s' => if Ascii.eqb c c' then expect p' s' else None
      | EmptyString => None
      end
  end.

Section ReadObject.
Variable A : Type.
Variable dec : string -> option (A * string).

Fixpoint read_members (indent : string) (fuel : nat) (s : string)
  : option (pydict A * string) :=
  match fuel with
  | 0 => None
  | S fuel' =>
      match read_string s with
      | None => None
      | Some (k, s1) =>
          match expect ": " s1 with
          | None => None
          | Some s2 =>
              match dec s2 with
              | None => None
              | Some (v, s3) =>
                  match expect ("," ++ LF ++ indent) s3 with
                  | None => Some ([(k, v)], s3)
                  | Some s4 =>
                      match read_members indent fuel' s4 with
                      | Some (d, s5) => Some ((k, v) :: d, s5)
                      | None => None
                      end
                  end
              end
          end
      end
  end.

Definition read_object (outer inner : string) (fuel : nat) (s : string)
  : option (pydict A * string) :=
  match expect "{" s with
  | None => None
  | Some s1 =>
      match expect "}" s1 with
      | Some s2 => Some ([], s2)
      | None =>
          match expect (LF ++ inner) s1 with
          | None => None
          | Some s2 =>
              match read_members inner fuel s2 with
              | None => None
              | Some (d, s3) =>
                  match expect (LF ++ outer ++ "}") s3 with
                  | Some s4 => Some (d, s4)
                  | None => None
                  end
              end
          end
      end
  end.
End ReadObject.

Lemma read_chars_escape_char c tail :
  read_chars (json_escape_char c ++ tail) = cons_char c (read_chars tail).
Proof. destruct c as [[] [] [] [] [] [] [] []]; reflexivity. Qed.

Lemma read_chars_escape s tail :
  read_chars (json_escape s ++ DQ ++ tail) = Some (s, tail).
Proof.
  induction s as [|c s IH]; [reflexivity|].
  cbn [json_escape]. rewrite Str.append_assoc, read_chars_escape_char, IH. reflexivity.
Qed.

Lemma read_string_json_string s tail :
  read_string (json_string s ++ tail) = Some (s, tail).
Proof.
  unfold json_string. rewrite !Str.append_assoc.
  change (DQ ++ ?x) with (String (ascii_of_nat 34) x).
  cbn [read_string]. change (Nat.eqb (code (ascii_of_nat 34)) 34) with true.
  cbv iota. apply read_chars_escape.
Qed.

Lemma expect_append p s : expect p (p ++ s) = Some s.
Proof.
  induction p as [|c p IH]; simpl; [reflexivity|]. now rewrite Ascii.eqb_refl.
Qed.

Lemma expect_comma_newline indent x :
  expect ("," ++ LF ++ indent) (LF ++ x) = None.
Proof. reflexivity. Qed.

Lemma expect_brace_newline x : expect "}" (LF ++ x) = None.
Proof. reflexivity. Qed.

Section ReadBack.
Variable A : Type.
Variable enc : A -> string.
Variable dec : string -> option (A * string).

Lemma read_members_dump indent d : forall fuel tail,
  d <> [] ->
  (forall k v, In (k, v) d -> forall x, dec (enc v ++ x) = Some (v, x)) ->
  List.length d <= fuel ->
  expect ("," ++ LF ++ indent) tail = None ->
  read_members dec indent fuel (json_members enc indent d ++ tail) = Some (d, tail).
Proof.
  induction d as [|[k v] d IH]; intros fuel tail Hne Hdec Hfuel Htail; [congruence|].
  destruct fuel as [|fuel]; [simpl in Hfuel; lia|].
  assert (Hv : forall x, dec (enc v ++ x) = Some (v, x)) by (apply (Hdec k); now left).
  destruct d as [|kv d'].
  - cbn [json_members read_members]. rewrite !Str.append_assoc.
    rewrite read_string_json_string, expect_append, Hv, Htail. reflexivity.
  - change (json_members enc indent ((k, v) :: kv :: d'))
      with (json_string k ++ ": " ++ enc v ++ "," ++ LF ++ indent ++
            json_members enc indent (kv :: d')).
    cbn [read_members]. rewrite !Str.append_assoc.
    rewrite read_string_json_string, expect_append, Hv.
    replace ("," ++ LF ++ indent ++ json_members enc indent (kv :: d') ++ tail)
      with (("," ++ LF ++ indent) ++ json_members enc indent (kv :: d') ++ tail)
      by (now rewrite !Str.append_assoc).
    rewrite expect_append. rewrite IH; [reflexivity | discriminate | | | exact Htail].
    + intros k0 v0 Hin. apply (Hdec k0). now right.
    + simpl in *. lia.
Qed.

Lemma read_object_dump outer inner d fuel rest :
  (forall k v, In (k, v) d -> forall x, dec (enc v ++ x) = Some (v, x)) ->
  List.length d <= fuel ->
  read_object dec outer inner fuel (json_object enc outer inner d ++ rest) = Some (d, rest).
Proof.
  intros Hdec Hfuel. destruct d as [|kv d']; [reflexivity|].
  unfold json_object, read_object. rewrite !Str.append_assoc.
  rewrite expect_append, expect_brace_newline.
  replace (LF ++ inner ++ json_members enc inner (kv :: d') ++ LF ++ outer ++ "}" ++ rest)
    with ((LF ++ inner) ++ json_members enc inner (kv :: d') ++
          LF ++ outer ++ "}" ++ rest)
    by (now rewrite !Str.append_assoc).
  rewrite expect_append.
  rewrite read_members_dump;
    [| discriminate | exact Hdec | exact Hfuel | apply expect_comma_newline].
  replace (LF ++ outer ++ "}" ++ rest) with ((LF ++ outer ++ "}") ++ rest)
    by (now rewrite !Str.append_assoc).
  now rewrite expect_append.
Qed.
End ReadBack.

(** The longest inner object of a state. *)
Fixpoint widest (s : State) : nat :=
  match s with
  | [] => 0
  | (_, e) :: s' => Nat.max (List.length e) (widest s')
  end.

Lemma widest_In s k e : In (k, e) s -> List.length e <= widest s.
Proof.
  induction s as [|[k0 e0] s IH]; simpl; [intros []|].
  intros [H | H]; [injection H as <- <-; lia | specialize (IH H); lia].
Qed.

(** A reader for the documents of [json_dump]. *)
Definition read_state (fuel : nat) (doc : string) : option State :=
  match read_object (read_object read_string "  " "    " fuel) "" "  " fuel doc with
  | Some (s, EmptyString) => Some s
  | _ => None
  end.

Lemma read_state_dump s fuel :
  List.length s <= fuel -> widest s <= fuel ->
  read_state fuel (json_dump s) = Some s.
Proof.
  intros Hlen Hwide. unfold read_state, json_dump.
  rewrite <- (Str.append_nil_r (json_object _ "" "  " s)).
  rewrite (@read_object_dump entry (json_object json_string "  " "    ")); [reflexivity | | exact Hlen].
  intros k e Hin x. apply read_object_dump.
  - intros k0 v0 _ y. apply read_string_json_string.
  - pose proof (widest_In _ _ _ Hin). lia.
Qed.

(** Two states that [save_state] writes as the same text are the same
    state: the file determines the state, key order included. *)
Theorem json_dump_injective (s1 s2 : State) :
  json_dump s1 = json_dump s2 -> s1 = s2.
Proof.
  intros H.
  set (fuel := List.length s1 + widest s1 + List.length s2 + widest s2).
  assert (H1 : read_state fuel (json_dump s1) = Some s1)
    by (apply read_state_dump; unfold fuel; lia).
  assert (H2 : read_state fuel (json_dump s2) = Some s2)
    by (apply read_state_dump; unfold fuel; lia).
  rewrite H in H1. rewrite H1 in H2. now injection H2.
Qed.

Lemma json_dump_injective_witness :
  untrack_update "one_piece" state_1171 = [("tracked", [])].
Proof.
  apply (@json_dump_injective (untrack_update "one_piece" state_1171) [("tracked", [])]).
  reflexivity.
Defined.

(** ** How the commands compose *)

Lemma dict_pop_set_absent (V : Type) k (v : V) d :
  dict_mem k d = false -> dict_pop k (dict_set k v d) = d.
Proof.
  unfold dict_mem. induction d as [|[k0 v0] d IH]; simpl.
  - now rewrite String.eqb_refl.
  - destruct (String.eqb k k0) eqn:E; [discriminate|]. simpl. rewrite E.
    intros H. now rewrite IH.
Qed.

Lemma dict_set_set (V : Type) k (v v' : V) d :
  dict_set k v (dict_set k v' d) = dict_set k v d.
Proof.
  induction d as [|[k0 v0] d IH]; simpl.
  - now rewrite String.eqb_refl.
  - destruct (String.eqb k k0) eqn:E; simpl; rewrite E; [reflexivity | now rewrite IH].
Qed.

Lemma dict_set_stored (V : Type) k (v : V) d :
  dict_get k d = Some v -> dict_set k v d = d.
Proof.
  induction d as [|[k0 v0] d IH]; simpl; [discriminate|].
  destruct (String.eqb k k0) eqn:E.
  - intros H. injection H as ->. reflexivity.
  - intros H. now rewrite IH.
Qed.

(** Assignments to two different keys can be swapped when the second key is
    in the dict already. *)
Lemma dict_set_swap (V : Type) k1 k2 (v1 v2 : V) d :
  k1 <> k2 -> dict_mem k1 d = true ->
  dict_set k1 v1 (dict_set k2 v2 d) = dict_set k2 v2 (dict_set k1 v1 d).
Proof.
  intros Hne. unfold dict_mem. induction d as [|[k0 v0] d IH]; simpl; [discriminate|].
  destruct (String.eqb k1 k0) eqn:E1.
  - apply String.eqb_eq in E1. subst k0. intros _.
    assert (E2 : String.eqb k2 k1 = false) by (apply String.eqb_neq; congruence).
    rewrite E2. simpl. rewrite String.eqb_refl, E2. reflexivity.
  - intros H. destruct (String.eqb k2 k0) eqn:E2; simpl; rewrite E1, E2.
    + reflexivity.
    + now rewrite IH.
Qed.

Lemma dict_mem_set_other (V : Type) k k' (v : V) d :
  dict_mem k' d = true -> dict_mem k' (dict_set k v d) = true.
Proof.
  intros H. apply dict_mem_In, dict_keys_set. right. now apply dict_mem_In.
Qed.

(** Untracking a series that was just tracked for the first time gives
    back the state as it was, entry for entry and in the same order. *)
Theorem untrack_undoes_track (s : State) (t : entry) (key url date ch : string) :
  dict_get "tracked" s = Some t ->
  dict_mem key t = false ->
  dict_mem ("latest:" ++ key) s = false ->
  untrack_update key (track_update key url date ch s) = s.
Proof.
  intros Ht Hkey Hrec.
  assert (Hg : get_tracked s = t) by (unfold get_tracked; now rewrite Ht).
  unfold untrack_update, track_update.
  rewrite get_tracked_set_latest, get_tracked_set_tracked, Hg.
  rewrite dict_pop_set_absent by exact Hkey.
  unfold set_tracked. rewrite dict_set_swap.
  - rewrite dict_set_set. rewrite (@dict_set_stored _ "tracked" t s Ht).
    now apply dict_pop_set_absent.
  - apply latest_not_tracked.
  - unfold dict_mem. now rewrite dict_get_set_same.
Qed.

Lemma untrack_undoes_track_witness :
  untrack_update "naruto"
    (track_update "naruto" NARUTO_URL "January 4, 2026" "700" state_1171) = state_1171.
Proof.
  apply (@untrack_undoes_track state_1171 [("one_piece", ONE_PIECE_URL)]
           "naruto" NARUTO_URL "January 4, 2026" "700");
    reflexivity.
Defined.

Lemma dict_set_twice (V : Type) k1 k2 (v1 v2 : V) d :
  k1 <> k2 ->
  dict_set k2 v2 (dict_set k1 v1 (dict_set k2 v2 (dict_set k1 v1 d))) =
  dict_set k2 v2 (dict_set k1 v1 d).
Proof.
  intros Hne. rewrite (@dict_set_swap V k1 k2 v1 v2 (dict_set k1 v1 d) Hne).
  - now rewrite !dict_set_set.
  - unfold dict_mem. now rewrite dict_get_set_same.
Qed.

(** Tracking the same series again with the same page changes nothing. *)
Theorem track_update_idempotent (s : State) (key url date ch : string) :
  track_update key url date ch (track_update key url date ch s) =
  track_update key url date ch s.
Proof.
  unfold track_update at 1.
  assert (Ht : get_tracked (track_update key url date ch s) =
               dict_set key url (get_tracked s)).
  { unfold track_update. now rewrite get_tracked_set_latest, get_tracked_set_tracked. }
  rewrite Ht, dict_set_set. unfold track_update, set_tracked.
  apply dict_set_twice, latest_not_tracked.
Qed.
